(** * convertToAPNG: the PNG-to-APNG codec of apng-generater

    A shallow embedding of [src/lib/convertToAPNG.ts] (the chunk parser, the
    chunk serializer, the CRC-32, the animation chunk builders and the
    assembler), together with the properties its specification states.

    Conventions of the embedding:
    - a [Uint8Array] is a [list byte]; every array the program handles spans
      its whole [ArrayBuffer] (the images come from
      [new Uint8Array(arrayBuffer)], the others from [new Uint8Array(n)] and
      [slice]), so [x.buffer] is modelled by [x] itself;
    - a JavaScript number that holds an integer is a [Z]; the 32-bit
      conversions of the bitwise operators and of the [DataView] setters are
      written out ([ToInt32], [ToUint32]);
    - a JavaScript string is the list of its code points;
    - an exception is a value of [exn] carried by [result]; the ones raised
      by the runtime ([TypeError], [RangeError]) are told apart from the one
      the program throws itself ([Error] with its message). *)

From Stdlib Require Import ZArith List Lia Bool.
From Stdlib.Strings Require Import String Ascii Byte.
From Equations Require Import Equations.
From Equations.Prop Require Import Logic.
Import ListNotations.

Local Open Scope Z_scope.

(** ** The JavaScript runtime, as far as the codec uses it *)

Module Js.

Inductive exn : Type :=
| TypeError
| RangeError
| Error (message : string).

Inductive result (A : Type) : Type :=
| Ok (value : A)
| Throw (e : exn).

Arguments Ok {A} value.
Arguments Throw {A} e.

Definition bind {A B : Type} (r : result A) (k : A -> result B) : result B :=
  match r with
  | Ok a => k a
  | Throw e => Throw e
  end.

Definition Uint8Array : Type := list byte.

Definition js_string : Type := list Z.

(** The code points of a string literal of the source (ASCII only). *)
Definition str (s : string) : js_string :=
  map (fun b => Z.of_N (Byte.to_N b)) (list_byte_of_string s).

Definition string_eqb (s t : js_string) : bool :=
  if list_eq_dec Z.eq_dec s t then true else false.

Definition len {A : Type} (l : list A) : Z := Z.of_nat (List.length l).

Definition byte_val (b : byte) : Z := Z.of_N (Byte.to_N b).

(** Storing a number into a [Uint8Array] element keeps it modulo 256. *)
Definition byte_of (z : Z) : byte :=
  match Byte.of_N (Z.to_N (z mod 256)) with
  | Some b => b
  | None => x00
  end.

Definition ToUint32 (z : Z) : Z := z mod 2 ^ 32.

Definition ToInt32 (z : Z) : Z := (z + 2 ^ 31) mod 2 ^ 32 - 2 ^ 31.

(** [a ^ b], [a & b] and [a >>> n] of JavaScript. *)
Definition bxor (a b : Z) : Z := Z.lxor (ToInt32 a) (ToInt32 b).

Definition band (a b : Z) : Z := Z.land (ToInt32 a) (ToInt32 b).

Definition ushr (a n : Z) : Z := Z.shiftr (ToUint32 a) (n mod 32).

(** [new Uint8Array(n)]: [n] zero bytes. *)
Definition new_Uint8Array (n : Z) : Uint8Array := repeat x00 (Z.to_nat n).

(** [a.slice(start, end)]: the indices are clamped to the array, a negative
    one counts from the end. *)
Definition relative_index (k n : Z) : Z :=
  if k <? 0 then Z.max (n + k) 0 else Z.min k n.

Definition slice (a : Uint8Array) (start finish : Z) : Uint8Array :=
  let from := relative_index start (len a) in
  let to := relative_index finish (len a) in
  firstn (Z.to_nat (to - from)) (skipn (Z.to_nat from) a).

(** [target.set(source, offset)]: a [RangeError] when the source does not
    fit. *)
Definition set (target source : Uint8Array) (offset : Z) : result Uint8Array :=
  if (0 <=? offset) && (offset + len source <=? len target) then
    Ok (firstn (Z.to_nat offset) target ++ source
          ++ skipn (Z.to_nat (offset + len source)) target)
  else Throw RangeError.

(** Big-endian fields of a [DataView]. *)
Fixpoint be_bytes (n : nat) (v : Z) : list byte :=
  match n with
  | O => []
  | S k => byte_of (v / 256 ^ Z.of_nat k) :: be_bytes k v
  end.

Definition be_value (bs : list byte) : Z :=
  fold_left (fun acc b => acc * 256 + byte_val b) bs 0.

(** [new DataView(buffer, byteOffset)]: the view starts at [byteOffset]; a
    [RangeError] when that is outside the buffer. *)
Definition DataView (buffer : Uint8Array) (byteOffset : Z) : result Uint8Array :=
  if (0 <=? byteOffset) && (byteOffset <=? len buffer) then
    Ok (skipn (Z.to_nat byteOffset) buffer)
  else Throw RangeError.

Definition getUint (width : nat) (view : Uint8Array) (pos : Z) : result Z :=
  if (0 <=? pos) && (pos + Z.of_nat width <=? len view) then
    Ok (be_value (firstn width (skipn (Z.to_nat pos) view)))
  else Throw RangeError.

Definition getUint32 : Uint8Array -> Z -> result Z := getUint 4.
Definition getUint16 : Uint8Array -> Z -> result Z := getUint 2.

(** The setters write through the view into the array it was made from. *)
Definition setUint (width : nat) (view : Uint8Array) (pos v : Z)
  : result Uint8Array :=
  if (0 <=? pos) && (pos + Z.of_nat width <=? len view) then
    Ok (firstn (Z.to_nat pos) view ++ be_bytes width v
          ++ skipn (Z.to_nat pos + width) view)
  else Throw RangeError.

Definition setUint32 : Uint8Array -> Z -> Z -> result Uint8Array := setUint 4.
Definition setUint16 : Uint8Array -> Z -> Z -> result Uint8Array := setUint 2.
Definition setUint8 : Uint8Array -> Z -> Z -> result Uint8Array := setUint 1.

(** [new TextEncoder().encode(s)]: UTF-8, a lone surrogate becomes U+FFFD. *)
Definition encode_code_point (c : Z) : list byte :=
  if c <? 0x80 then [byte_of c]
  else if c <? 0x800 then
    [byte_of (0xC0 + c / 64); byte_of (0x80 + c mod 64)]
  else if c <? 0x10000 then
    if (0xD800 <=? c) && (c <=? 0xDFFF) then [xef; xbf; xbd]
    else [byte_of (0xE0 + c / 4096); byte_of (0x80 + (c / 64) mod 64);
          byte_of (0x80 + c mod 64)]
  else
    [byte_of (0xF0 + c / 262144); byte_of (0x80 + (c / 4096) mod 64);
     byte_of (0x80 + (c / 64) mod 64); byte_of (0x80 + c mod 64)].

Definition TextEncoder_encode (s : js_string) : Uint8Array :=
  flat_map encode_code_point s.

(** [new TextDecoder().decode(bytes)]: the UTF-8 decoder of the Encoding
    standard, replacement mode, a leading byte order mark dropped. *)
Record utf8_state : Type := {
  code_point : Z;
  bytes_left : nat;
  lower_boundary : Z;
  upper_boundary : Z
}.

Definition utf8_initial : utf8_state :=
  {| code_point := 0; bytes_left := 0;
     lower_boundary := 0x80; upper_boundary := 0xBF |}.

Definition utf8_lead (b : Z) : list Z * utf8_state :=
  if b <=? 0x7F then ([b], utf8_initial)
  else if (0xC2 <=? b) && (b <=? 0xDF) then
    ([], {| code_point := Z.land b 0x1F; bytes_left := 1;
            lower_boundary := 0x80; upper_boundary := 0xBF |})
  else if (0xE0 <=? b) && (b <=? 0xEF) then
    ([], {| code_point := Z.land b 0xF; bytes_left := 2;
            lower_boundary := if b =? 0xE0 then 0xA0 else 0x80;
            upper_boundary := if b =? 0xED then 0x9F else 0xBF |})
  else if (0xF0 <=? b) && (b <=? 0xF4) then
    ([], {| code_point := Z.land b 0x7; bytes_left := 3;
            lower_boundary := if b =? 0xF0 then 0x90 else 0x80;
            upper_boundary := if b =? 0xF4 then 0x8F else 0xBF |})
  else ([0xFFFD], utf8_initial).

Fixpoint utf8_decode (bs : list byte) (st : utf8_state) : js_string :=
  match bs with
  | [] => match bytes_left st with O => [] | S _ => [0xFFFD] end
  | b :: rest =>
      let v := byte_val b in
      match bytes_left st with
      | O => let (out, st') := utf8_lead v in out ++ utf8_decode rest st'
      | S k =>
          if (lower_boundary st <=? v) && (v <=? upper_boundary st) then
            let c := code_point st * 64 + Z.land v 0x3F in
            match k with
            | O => c :: utf8_decode rest utf8_initial
            | S _ =>
                utf8_decode rest
                  {| code_point := c; bytes_left := k;
                     lower_boundary := 0x80; upper_boundary := 0xBF |}
            end
          else
            let (out, st') := utf8_lead v in
            0xFFFD :: out ++ utf8_decode rest st'
      end
  end.

Definition strip_bom (bs : list byte) : list byte :=
  match bs with
  | xef :: xbb :: xbf :: rest => rest
  | _ => bs
  end.

Definition TextDecoder_decode (bs : Uint8Array) : js_string :=
  utf8_decode (strip_bom bs) utf8_initial.

End Js.

Import Js.

Notation "x <- e ;; k" := (bind e (fun x => k))
  (at level 61, e at next level, right associativity).

(** ** The codec: [src/lib/convertToAPNG.ts] *)

Definition PNG_SIGNATURE : Uint8Array :=
  map byte_of [137; 80; 78; 71; 13; 10; 26; 10].

(** A JavaScript condition holds for every number but zero. *)
Definition truthy (z : Z) : bool := negb (z =? 0).

Fixpoint iterate {A : Type} (n : nat) (f : A -> A) (x : A) : A :=
  match n with
  | O => x
  | S k => iterate k f (f x)
  end.

(** The body of the inner loop that fills [crcTable]:
    [c = c & 1 ? 0xedb88320 ^ (c >>> 1) : c >>> 1]. *)
Definition crcTable_step (c : Z) : Z :=
  if truthy (band c 1) then bxor 0xedb88320 (ushr c 1) else ushr c 1.

(** [crcTable] is a [Uint32Array]: a stored element is taken modulo 2^32. *)
Definition make_crcTable : list Z :=
  map (fun i => ToUint32 (iterate 8 crcTable_step (Z.of_nat i))) (seq 0 256).

Definition crcTable : list Z := Eval vm_compute in make_crcTable.

(** [crcTable[k]]; the index the program uses is always within 0..255. *)
Definition crcTable_at (k : Z) : Z := nth (Z.to_nat k) crcTable 0.

Definition crc32_step (crc : Z) (b : byte) : Z :=
  bxor (ushr crc 8) (crcTable_at (band (bxor crc (byte_val b)) 0xff)).

Definition crc32 (data : Uint8Array) : Z :=
  let crc := fold_left crc32_step data (-1) in
  ushr (bxor crc (-1)) 0.

Definition createChunk (type : js_string) (data : Uint8Array)
  : result Uint8Array :=
  length <- setUint32 (new_Uint8Array 4) 0 (len data) ;;
  let typeArray := TextEncoder_encode type in
  crcData <- set (new_Uint8Array (len typeArray + len data)) typeArray 0 ;;
  crcData <- set crcData data (len typeArray) ;;
  crc <- setUint32 (new_Uint8Array 4) 0 (crc32 crcData) ;;
  chunk <- set (new_Uint8Array
                  (len length + len typeArray + len data + len crc)) length 0 ;;
  chunk <- set chunk typeArray (len length) ;;
  chunk <- set chunk data (len length + len typeArray) ;;
  chunk <- set chunk crc (len length + len typeArray + len data) ;;
  Ok chunk.

Definition createActlChunk (numFrames : Z) : result Uint8Array :=
  data <- setUint32 (new_Uint8Array 8) 0 numFrames ;;
  data <- setUint32 data 4 0 ;;
  createChunk (str "acTL") data.

Definition createFctlChunk (sequenceNumber width height delay : Z)
  : result Uint8Array :=
  data <- setUint32 (new_Uint8Array 26) 0 sequenceNumber ;;
  data <- setUint32 data 4 width ;;
  data <- setUint32 data 8 height ;;
  data <- setUint32 data 12 0 ;;
  data <- setUint32 data 16 0 ;;
  data <- setUint16 data 20 delay ;;
  data <- setUint16 data 22 1000 ;;
  data <- setUint8 data 24 0 ;;
  data <- setUint8 data 25 0 ;;
  createChunk (str "fcTL") data.

(** [array.map((element, index) => f(element, index))] for an [f] that may
    throw. *)
Fixpoint map_indexed {A B : Type} (f : A -> Z -> result B) (l : list A)
  (index : Z) : result (list B) :=
  match l with
  | [] => Ok []
  | a :: rest =>
      b <- f a index ;;
      bs <- map_indexed f rest (index + 1) ;;
      Ok (b :: bs)
  end.

Definition createFdatChunks (idatChunks : list Uint8Array)
  (startSequenceNumber : Z) : result (list Uint8Array) :=
  map_indexed
    (fun idatChunk index =>
       fdatData <- setUint32 (new_Uint8Array (len idatChunk + 4)) 0
                     (startSequenceNumber + index) ;;
       fdatData <- set fdatData idatChunk 4 ;;
       createChunk (str "fdAT") fdatData)
    idatChunks 0.

Record PNGChunk : Type := { type : js_string; data : Uint8Array }.

(** [new DataView(pngData.buffer, offset).getUint32(0)]. *)
Definition chunkLength_at (pngData : Uint8Array) (offset : Z) : result Z :=
  view <- DataView pngData offset ;;
  getUint32 view 0.

Lemma be_value_nonneg (bs : list byte) : 0 <= be_value bs.
Proof.
  unfold be_value.
  assert (H : forall acc, 0 <= acc ->
            0 <= fold_left (fun a b => a * 256 + byte_val b) bs acc).
  { induction bs as [|b bs IH]; intros acc Hacc; simpl; [exact Hacc|].
    apply IH. unfold byte_val. lia. }
  apply H. lia.
Qed.

Lemma chunkLength_at_nonneg (pngData : Uint8Array) (offset n : Z) :
  chunkLength_at pngData offset = Ok n -> 0 <= n.
Proof.
  unfold chunkLength_at, DataView, getUint32, getUint, bind.
  destruct ((0 <=? offset) && (offset <=? len pngData)); [|discriminate].
  destruct ((0 <=? 0) && (0 + Z.of_nat 4 <=? len _)); [|discriminate].
  intros H. injection H as <-. apply be_value_nonneg.
Qed.

(** The [while] loop of [extractAllChunks]: every round moves [offset]
    forward by at least 12, so the distance to the end of the buffer
    decreases. *)
Equations? extract_loop (pngData : Uint8Array) (offset : Z)
  (chunks : list PNGChunk) : result (list PNGChunk)
  by wf (Z.to_nat (len pngData - offset)) lt :=
extract_loop pngData offset chunks with Z_lt_dec offset (len pngData) := {
  | right _ := Ok chunks
  | left _ with inspect (chunkLength_at pngData offset) := {
    | exist _ (Throw e) _ := Throw e
    | exist _ (Ok chunkLength) _ :=
        let chunkType :=
          TextDecoder_decode (slice pngData (offset + 4) (offset + 8)) in
        let chunkData := slice pngData (offset + 8) (offset + 8 + chunkLength) in
        let chunks' := chunks ++ [{| type := chunkType; data := chunkData |}] in
        if string_eqb chunkType (str "IEND") then Ok chunks'
        else extract_loop pngData (offset + (chunkLength + 12)) chunks' } }.
Proof.
  match goal with
  | H : chunkLength_at _ _ = Ok _ |- _ => apply chunkLength_at_nonneg in H
  end.
  lia.
Qed.

Definition extractAllChunks (pngData : Uint8Array) : result (list PNGChunk) :=
  extract_loop pngData 8 [].

(** Reading a property of [undefined] raises a [TypeError]. *)
Definition defined {A : Type} (v : option A) : result A :=
  match v with
  | Some a => Ok a
  | None => Throw TypeError
  end.

(** The loop that copies the chunks of the first image that precede its
    first [IDAT]. *)
Fixpoint copy_before_IDAT (firstImageChunks : list PNGChunk)
  (chunks : list Uint8Array) : result (list Uint8Array) :=
  match firstImageChunks with
  | [] => Ok chunks
  | chunk :: rest =>
      if string_eqb (type chunk) (str "IDAT") then Ok chunks
      else
        c <- createChunk (type chunk) (data chunk) ;;
        copy_before_IDAT rest (chunks ++ [c])
  end.

(** The mutable state of the frame loop. *)
Record frame_state : Type := {
  chunks : list Uint8Array;
  sequenceNumber : Z
}.

Definition is_IDAT (chunk : PNGChunk) : bool :=
  string_eqb (type chunk) (str "IDAT").

(** One round of [for (let i = 0; i < images.length; i++)]. *)
Definition process_image (width height delay i : Z) (image : Uint8Array)
  (st : frame_state) : result frame_state :=
  fctl <- createFctlChunk (sequenceNumber st) width height delay ;;
  let chunks1 := chunks st ++ [fctl] in
  let sequenceNumber1 := sequenceNumber st + 1 in
  imageChunks <- extractAllChunks image ;;
  let idatChunks := map data (filter is_IDAT imageChunks) in
  if i =? 0 then
    idats <- map_indexed (fun idatData _ => createChunk (str "IDAT") idatData)
               idatChunks 0 ;;
    Ok {| chunks := chunks1 ++ idats; sequenceNumber := sequenceNumber1 |}
  else
    fdats <- createFdatChunks idatChunks sequenceNumber1 ;;
    Ok {| chunks := chunks1 ++ fdats;
          sequenceNumber := sequenceNumber1 + len idatChunks |}.

Fixpoint process_images (width height delay i : Z) (images : list Uint8Array)
  (st : frame_state) : result frame_state :=
  match images with
  | [] => Ok st
  | image :: rest =>
      st' <- process_image width height delay i image st ;;
      process_images width height delay (i + 1) rest st'
  end.

Fixpoint concatenate_loop (arrays : list Uint8Array) (result : Uint8Array)
  (offset : Z) : Js.result Uint8Array :=
  match arrays with
  | [] => Ok result
  | arr :: rest =>
      result' <- set result arr offset ;;
      concatenate_loop rest result' (offset + len arr)
  end.

Definition concatenateUint8Arrays (arrays : list Uint8Array)
  : result Uint8Array :=
  let totalLength := fold_left (fun sum arr => sum + len arr) arrays 0 in
  concatenate_loop arrays (new_Uint8Array totalLength) 0.

Definition IHDR_not_found : exn :=
  Error "IHDR chunk not found in the first image".

(** [createAPNG] up to the last [chunks.push]: the byte arrays it has
    collected in [chunks] when it reaches [concatenateUint8Arrays]. *)
Definition createAPNG_chunks (images : list Uint8Array) (delay : Z)
  : result (list Uint8Array) :=
  let firstImage := nth_error images 0 in
  let chunks0 := [PNG_SIGNATURE] in
  pngData <- defined firstImage ;;
  firstImageChunks <- extractAllChunks pngData ;;
  match find (fun chunk => string_eqb (type chunk) (str "IHDR"))
          firstImageChunks with
  | None => Throw IHDR_not_found
  | Some ihdrChunk =>
      view <- DataView (data ihdrChunk) 0 ;;
      width <- getUint32 view 0 ;;
      view <- DataView (data ihdrChunk) 0 ;;
      height <- getUint32 view 4 ;;
      chunks1 <- copy_before_IDAT firstImageChunks chunks0 ;;
      actl <- createActlChunk (len images) ;;
      st <- process_images width height delay 0 images
              {| chunks := chunks1 ++ [actl]; sequenceNumber := 0 |} ;;
      iend <- createChunk (str "IEND") (new_Uint8Array 0) ;;
      Ok (chunks st ++ [iend])
  end.

(** [createAPNG]; of the value it returns only [binary] is modelled (the
    [Blob] wraps the same bytes). *)
Definition createAPNG (images : list Uint8Array) (delay : Z)
  : result Uint8Array :=
  chunks <- createAPNG_chunks images delay ;;
  concatenateUint8Arrays chunks.

(** [convertToAPNG]: whatever [createAPNG] throws is caught and logged, and
    [undefined] is returned; of the object returned otherwise only [binary]
    is modelled ([url] and [processingTime] come from the host). *)
Definition convertToAPNG (images : list Uint8Array) (delay : Z)
  : option Uint8Array :=
  match createAPNG images delay with
  | Ok binary => Some binary
  | Throw _ => None
  end.

(** ** Reference definitions

    What the properties below are stated against: the bit-serial CRC-32,
    the byte layout of a chunk, the records the assembler emits, and what a
    well-formed still image looks like on the wire. *)

(** One bit of the reflected CRC-32 with polynomial [0xEDB88320]. *)
Definition crc32_bit (c : Z) : Z :=
  if Z.testbit c 0 then Z.lxor (Z.shiftr c 1) 0xEDB88320 else Z.shiftr c 1.

Definition crc32_byte (c : Z) (b : byte) : Z :=
  iterate 8 crc32_bit (Z.lxor c (byte_val b)).

(** The standard CRC-32: register preset to [0xFFFFFFFF], one byte after
    the other, the register complemented at the end. *)
Definition crc32_reference (bs : list byte) : Z :=
  Z.lxor (fold_left crc32_byte bs 0xFFFFFFFF) 0xFFFFFFFF.

(** The chunk layout of the format: the payload length in four bytes, big
    endian, the tag, the payload, and the CRC-32 of tag and payload in four
    bytes, big endian. *)
Definition chunk_layout (tagBytes payloadBytes : list byte) : list byte :=
  be_bytes 4 (len payloadBytes) ++ tagBytes ++ payloadBytes
    ++ be_bytes 4 (crc32_reference (tagBytes ++ payloadBytes)).

(** What [createChunk] returns, in terms of the program's own [crc32]. *)
Definition chunk_bytes (type : js_string) (data : Uint8Array) : Uint8Array :=
  be_bytes 4 (len data) ++ TextEncoder_encode type ++ data
    ++ be_bytes 4 (crc32 (TextEncoder_encode type ++ data)).

Definition wire (c : PNGChunk) : Uint8Array := chunk_bytes (type c) (data c).

Definition actl_data (numFrames : Z) : Uint8Array :=
  be_bytes 4 numFrames ++ be_bytes 4 0.

Definition fctl_data (sequenceNumber width height delay : Z) : Uint8Array :=
  be_bytes 4 sequenceNumber ++ be_bytes 4 width ++ be_bytes 4 height
    ++ be_bytes 4 0 ++ be_bytes 4 0 ++ be_bytes 2 delay ++ be_bytes 2 1000
    ++ be_bytes 1 0 ++ be_bytes 1 0.

Definition actl_record (numFrames : Z) : PNGChunk :=
  {| type := str "acTL"; data := actl_data numFrames |}.

Definition fctl_record (sequenceNumber width height delay : Z) : PNGChunk :=
  {| type := str "fcTL";
     data := fctl_data sequenceNumber width height delay |}.

Definition idat_record (idatData : Uint8Array) : PNGChunk :=
  {| type := str "IDAT"; data := idatData |}.

Definition iend_record : PNGChunk := {| type := str "IEND"; data := [] |}.

Fixpoint fdat_records (idatChunks : list Uint8Array) (sequenceNumber : Z)
  : list PNGChunk :=
  match idatChunks with
  | [] => []
  | idatChunk :: rest =>
      {| type := str "fdAT"; data := be_bytes 4 sequenceNumber ++ idatChunk |}
        :: fdat_records rest (sequenceNumber + 1)
  end.

(** The payloads of the [IDAT] chunks of an image, in source order. *)
Definition idat_payloads (image : Uint8Array) : result (list Uint8Array) :=
  imageChunks <- extractAllChunks image ;;
  Ok (map data (filter is_IDAT imageChunks)).

(** The records the frame loop emits from frame [i] on, and the sequence
    number it ends with. *)
Fixpoint frame_records (width height delay i sequenceNumber : Z)
  (images : list Uint8Array) : result (list PNGChunk * Z) :=
  match images with
  | [] => Ok ([], sequenceNumber)
  | image :: rest =>
      idats <- idat_payloads image ;;
      let body :=
        if i =? 0 then map idat_record idats
        else fdat_records idats (sequenceNumber + 1) in
      let next :=
        if i =? 0 then sequenceNumber + 1
        else sequenceNumber + 1 + len idats in
      r <- frame_records width height delay (i + 1) next rest ;;
      Ok (fctl_record sequenceNumber width height delay :: body ++ fst r,
          snd r)
  end.

Definition is_type (name : string) (chunk : PNGChunk) : bool :=
  string_eqb (type chunk) (str name).

(** The chunks of a stream that precede its first [IDAT]. *)
Fixpoint before_IDAT (cs : list PNGChunk) : list PNGChunk :=
  match cs with
  | [] => []
  | c :: rest => if is_IDAT c then [] else c :: before_IDAT rest
  end.

(** The chunks of a sequence up to and including its first [IEND], and
    whether it has one. *)
Fixpoint through_IEND (cs : list PNGChunk) : list PNGChunk * bool :=
  match cs with
  | [] => ([], false)
  | c :: rest =>
      if is_type "IEND" c then ([c], true)
      else let (more, found) := through_IEND rest in (c :: more, found)
  end.

(** The sequence number an emitted chunk carries: the first payload field
    of a frame-control or frame-data chunk; other chunks carry none. *)
Definition sequence_number_of (chunk : Uint8Array) : option Z :=
  let tag := TextDecoder_decode (slice chunk 4 8) in
  if string_eqb tag (str "fcTL") || string_eqb tag (str "fdAT") then
    match getUint32 chunk 8 with
    | Ok n => Some n
    | Throw _ => None
    end
  else None.

Fixpoint sequence_numbers (chunks : list Uint8Array) : list Z :=
  match chunks with
  | [] => []
  | chunk :: rest =>
      match sequence_number_of chunk with
      | Some n => n :: sequence_numbers rest
      | None => sequence_numbers rest
      end
  end.

Definition tag_of (chunk : Uint8Array) : js_string :=
  TextDecoder_decode (slice chunk 4 8).

Definition count_tag (name : string) (chunks : list Uint8Array) : nat :=
  List.length (filter (fun chunk => string_eqb (tag_of chunk) (str name)) chunks).

(** The number of [IDAT] chunks the parser finds in an image. *)
Definition idat_count (image : Uint8Array) : nat :=
  match idat_payloads image with
  | Ok idats => List.length idats
  | Throw _ => O
  end.

Definition consecutive (n : nat) : list Z := map Z.of_nat (seq 0 n).

(** A chunk as it lies in a file: tag, payload and check field. *)
Record RawChunk : Type := {
  tag : list byte;
  payload : list byte;
  check : list byte
}.

Definition raw_bytes (rc : RawChunk) : list byte :=
  be_bytes 4 (len (payload rc)) ++ tag rc ++ payload rc ++ check rc.

(** What the parser makes of a framed chunk. *)
Definition parsed (rc : RawChunk) : PNGChunk :=
  {| type := TextDecoder_decode (tag rc); data := payload rc |}.

(** The framing the parser relies on: four tag bytes, four check bytes, a
    payload whose length fits the length field. *)
Definition framed (rc : RawChunk) : Prop :=
  List.length (tag rc) = 4%nat /\ List.length (check rc) = 4%nat
  /\ len (payload rc) < 2 ^ 32.

Definition is_letter (b : byte) : bool :=
  let v := byte_val b in
  ((65 <=? v) && (v <=? 90)) || ((97 <=? v) && (v <=? 122)).

(** A chunk of a PNG datastream: a tag of four letters, a payload of at
    most 2^31-1 bytes. The check field is not constrained: the parser
    never reads it. *)
Definition png_chunk (rc : RawChunk) : Prop :=
  List.length (tag rc) = 4%nat /\ forallb is_letter (tag rc) = true
  /\ List.length (check rc) = 4%nat /\ len (payload rc) < 2 ^ 31.

Definition has_tag (name : string) (rc : RawChunk) : Prop :=
  tag rc = list_byte_of_string name.

Definition tag_in (names : list string) (rc : RawChunk) : bool :=
  existsb (fun name =>
             if list_eq_dec Byte.byte_eq_dec (tag rc) (list_byte_of_string name)
             then true else false) names.

(** The tags a still image carries only where the format puts them
    ([IHDR] first, [IEND] last) or not at all (the animation chunks). *)
Definition reserved_tags : list string :=
  ["IHDR"%string; "IEND"%string; "acTL"%string; "fcTL"%string; "fdAT"%string].

(** A well-formed still image: the signature, then [IHDR] with its 13 bytes,
    then chunks of which at least one is an [IDAT] and none is an [IHDR], an
    [IEND] or an animation chunk, then the empty [IEND]. *)
Definition well_formed_png (image : Uint8Array) : Prop :=
  exists ihdr middle iend,
    image = PNG_SIGNATURE ++ flat_map raw_bytes (ihdr :: middle ++ [iend])
    /\ Forall png_chunk (ihdr :: middle ++ [iend])
    /\ has_tag "IHDR" ihdr /\ List.length (payload ihdr) = 13%nat
    /\ has_tag "IEND" iend /\ payload iend = []
    /\ forallb (fun rc => negb (tag_in reserved_tags rc)) middle = true
    /\ existsb (tag_in ["IDAT"%string]) middle = true.

(** Exceptions the runtime raises, as opposed to an error the program
    constructs and throws itself. *)
Definition raised_by_runtime (e : exn) : bool :=
  match e with
  | TypeError | RangeError => true
  | Error _ => false
  end.

(** The raw form of a chunk the assembler emits. *)
Definition raw_of (c : PNGChunk) : RawChunk :=
  {| tag := TextEncoder_encode (type c);
     payload := data c;
     check := be_bytes 4 (crc32 (TextEncoder_encode (type c) ++ data c)) |}.

(** The number of frame-data chunks the frame loop emits from frame [i]
    on: none for frame 0, one for each [IDAT] of every other frame. *)
Fixpoint fdat_count (i : Z) (images : list Uint8Array) : nat :=
  match images with
  | [] => O
  | image :: rest =>
      ((if (i =? 0)%Z then O else idat_count image)
       + fdat_count (i + 1)%Z rest)%nat
  end.

(** The numbers [first], [first + 1], ... ([n] of them). *)
Definition counting_from (first : Z) (n : nat) : list Z :=
  map (fun k => first + Z.of_nat k) (seq 0 n).

(** A type tag of the format: four ASCII characters. *)
Definition ascii_tag (type : js_string) : Prop :=
  List.length type = 4%nat /\ Forall (fun c => 0 <= c < 128) type.

(** A chunk parsed from a still image, and a chunk whose wire form the
    parser reads back: an ASCII tag of four characters and a payload that
    fits (with the four bytes a frame-data chunk adds, for the former). *)
Definition still_chunk (c : PNGChunk) : Prop :=
  ascii_tag (type c) /\ len (data c) < 2 ^ 31.

Definition emittable (c : PNGChunk) : Prop :=
  ascii_tag (type c) /\ len (data c) < 2 ^ 32.

(** A chunk that carries none of the reserved tags. *)
Definition plain (c : PNGChunk) : bool :=
  negb (existsb (fun name => is_type name c) reserved_tags).

(** The three kinds of record the frame loop emits. *)
Definition frame_record (width height delay : Z) (c : PNGChunk) : Prop :=
  (exists s, c = fctl_record s width height delay)
  \/ (exists idatData, c = idat_record idatData)
  \/ (exists s idatChunk,
        c = {| type := str "fdAT"; data := be_bytes 4 s ++ idatChunk |}).

(** The compressed image data a decoder takes from a chunk: the payload of
    an [IDAT], the payload of an [fdAT] after its four-byte sequence number. *)
Definition image_data (c : PNGChunk) : list Uint8Array :=
  if is_type "IDAT" c then [data c]
  else if is_type "fdAT" c then [skipn 4 (data c)]
  else [].

(** The states the loop of the parser passes through: it starts behind the
    signature with no chunk; from a state inside the buffer, where the
    length field is read and the chunk is not an [IEND], it goes on behind
    that chunk. *)
Inductive loop_state (pngData : Uint8Array) : Z -> list PNGChunk -> Prop :=
| loop_start : loop_state pngData 8 []
| loop_step (offset chunkLength : Z) (chunks : list PNGChunk) :
    loop_state pngData offset chunks ->
    offset < len pngData ->
    chunkLength_at pngData offset = Ok chunkLength ->
    string_eqb (TextDecoder_decode (slice pngData (offset + 4) (offset + 8)))
      (str "IEND") = false ->
    loop_state pngData (offset + (chunkLength + 12))
      (chunks
         ++ [{| type :=
                  TextDecoder_decode (slice pngData (offset + 4) (offset + 8));
                data :=
                  slice pngData (offset + 8) (offset + 8 + chunkLength) |}]).

(** ** Sample inputs: two 1x1 greyscale images, one black, one white *)

Definition raw (name : string) (content check : list Z) : RawChunk :=
  {| tag := list_byte_of_string name;
     payload := map byte_of content;
     check := map byte_of check |}.

Definition sample_ihdr : RawChunk :=
  raw "IHDR" [0; 0; 0; 1; 0; 0; 0; 1; 8; 0; 0; 0; 0] [58; 126; 155; 85].

Definition sample_idat_black : RawChunk :=
  raw "IDAT" [120; 156; 99; 96; 0; 0; 0; 2; 0; 1] [72; 175; 164; 113].

Definition sample_idat_white : RawChunk :=
  raw "IDAT" [120; 156; 99; 248; 15; 0; 1; 1; 1; 0] [177; 56; 246; 20].

Definition sample_iend : RawChunk := raw "IEND" [] [174; 66; 96; 130].

Definition sample_black : Uint8Array :=
  PNG_SIGNATURE
    ++ flat_map raw_bytes [sample_ihdr; sample_idat_black; sample_iend].

Definition sample_white : Uint8Array :=
  PNG_SIGNATURE
    ++ flat_map raw_bytes [sample_ihdr; sample_idat_white; sample_iend].

(** A stream cut inside the payload of its only chunk: the length field
    says 5, two payload bytes follow. *)
Definition sample_truncated : Uint8Array :=
  PNG_SIGNATURE ++ map byte_of [0; 0; 0; 5; 73; 68; 65; 84; 1; 2].

(** A stream cut inside a length field. *)
Definition sample_cut_length : Uint8Array :=
  PNG_SIGNATURE ++ map byte_of [0; 0].

(** A stream without a header chunk. *)
Definition sample_headerless : Uint8Array :=
  PNG_SIGNATURE ++ flat_map raw_bytes [sample_idat_black; sample_iend].

(** An image that is animated already: the black sample with an
    animation-control chunk and a frame-control chunk, sequence number 0,
    ahead of its [IDAT]. *)
Definition sample_animated : Uint8Array :=
  PNG_SIGNATURE
    ++ flat_map raw_bytes
         [sample_ihdr; raw_of (actl_record 1); raw_of (fctl_record 0 1 1 100);
          sample_idat_black; sample_iend].

(** ** Bytes, lengths and big-endian fields *)

Section Bytes.

Lemma byte_val_range (b : byte) : 0 <= byte_val b < 256.
Proof. unfold byte_val. pose proof (Byte.to_N_bounded b). lia. Qed.

Lemma byte_val_of (z : Z) : byte_val (byte_of z) = z mod 256.
Proof.
  unfold byte_val, byte_of.
  assert (Hr : 0 <= z mod 256 < 256) by (apply Z.mod_pos_bound; lia).
  destruct (Byte.of_N (Z.to_N (z mod 256))) eqn:E.
  - apply Byte.to_of_N in E. rewrite E. lia.
  - apply Byte.of_N_None_iff in E. lia.
Qed.

Lemma byte_of_val (b : byte) : byte_of (byte_val b) = b.
Proof.
  pose proof (byte_val_range b) as Hr.
  unfold byte_of. rewrite Z.mod_small by exact Hr.
  unfold byte_val. rewrite N2Z.id, Byte.of_to_N. reflexivity.
Qed.

Lemma byte_of_congr (a b : Z) : a mod 256 = b mod 256 -> byte_of a = byte_of b.
Proof. unfold byte_of. intros ->. reflexivity. Qed.

Lemma len_nonneg {A : Type} (l : list A) : 0 <= len l.
Proof. unfold len. lia. Qed.

Lemma len_app {A : Type} (l1 l2 : list A) : len (l1 ++ l2) = len l1 + len l2.
Proof. unfold len. rewrite length_app. lia. Qed.

Lemma len_cons {A : Type} (a : A) (l : list A) : len (a :: l) = 1 + len l.
Proof. unfold len. simpl List.length. lia. Qed.

Lemma len_nil {A : Type} : len (@nil A) = 0.
Proof. reflexivity. Qed.

Lemma len_new_Uint8Array (n : Z) : 0 <= n -> len (new_Uint8Array n) = n.
Proof. intros H. unfold len, new_Uint8Array. rewrite repeat_length. lia. Qed.

Lemma length_be_bytes (n : nat) (v : Z) : List.length (be_bytes n v) = n.
Proof. induction n as [|n IH]; simpl; [reflexivity | now rewrite IH]. Qed.

Lemma len_be_bytes (n : nat) (v : Z) : len (be_bytes n v) = Z.of_nat n.
Proof. unfold len. now rewrite length_be_bytes. Qed.

Lemma be_value_acc (bs : list byte) (acc : Z) :
  fold_left (fun a b => a * 256 + byte_val b) bs acc
  = acc * 256 ^ len bs + be_value bs.
Proof.
  unfold be_value. revert acc.
  induction bs as [|b bs IH]; intros acc.
  - cbn. lia.
  - cbn [fold_left]. rewrite IH, (IH (0 * 256 + byte_val b)).
    rewrite len_cons, Z.pow_add_r by (pose proof (len_nonneg bs); lia).
    lia.
Qed.

Lemma be_value_cons (b : byte) (bs : list byte) :
  be_value (b :: bs) = byte_val b * 256 ^ len bs + be_value bs.
Proof.
  unfold be_value at 1. cbn [fold_left]. rewrite be_value_acc. lia.
Qed.

Lemma be_value_bound (bs : list byte) : 0 <= be_value bs < 256 ^ len bs.
Proof.
  induction bs as [|b bs IH].
  - cbn. lia.
  - rewrite be_value_cons, len_cons.
    rewrite Z.pow_add_r by (pose proof (len_nonneg bs); lia).
    pose proof (byte_val_range b). nia.
Qed.

Lemma be_value_be_bytes (n : nat) (v : Z) :
  be_value (be_bytes n v) = v mod 256 ^ Z.of_nat n.
Proof.
  induction n as [|n IH].
  - cbn. now rewrite Z.mod_1_r.
  - simpl be_bytes. rewrite be_value_cons, IH, byte_val_of, len_be_bytes.
    rewrite Nat2Z.inj_succ, Z.pow_succ_r by lia.
    rewrite (Z.mul_comm 256), Z.rem_mul_r by lia.
    lia.
Qed.

Lemma be_bytes_mod (n : nat) (v : Z) :
  be_bytes n (v mod 256 ^ Z.of_nat n) = be_bytes n v.
Proof.
  assert (H : forall m k, (k <= m)%nat ->
            be_bytes k (v mod 256 ^ Z.of_nat m) = be_bytes k v).
  { intros m k. induction k as [|k IH]; intros Hk; [reflexivity|].
    simpl. rewrite IH by lia. f_equal.
    apply byte_of_congr.
    replace (Z.of_nat m) with (Z.of_nat k + (1 + Z.of_nat (m - S k))) by lia.
    rewrite Z.pow_add_r, Z.rem_mul_r by lia.
    rewrite (Z.mul_comm (256 ^ Z.of_nat k)), Z.div_add by lia.
    rewrite (Z.div_small (v mod _)) by (apply Z.mod_pos_bound; lia).
    rewrite Z.add_0_l, Z.pow_add_r by lia.
    change (256 ^ 1) with 256.
    rewrite Z.rem_mul_r by lia.
    rewrite (Z.mul_comm 256), Z.mod_add by lia.
    now rewrite Z.mod_mod by lia. }
  apply H. lia.
Qed.

Lemma be_bytes_be_value (bs : list byte) :
  be_bytes (List.length bs) (be_value bs) = bs.
Proof.
  induction bs as [|b bs IH]; [reflexivity|].
  simpl be_bytes. rewrite be_value_cons.
  pose proof (be_value_bound bs) as Hb.
  pose proof (byte_val_range b) as Hr.
  unfold len in *.
  f_equal.
  - rewrite <- (byte_of_val b) at 2. apply byte_of_congr. f_equal.
    rewrite Z.div_add_l by lia.
    rewrite Z.div_small by lia. lia.
  - rewrite <- be_bytes_mod.
    rewrite Z.add_comm, Z.mod_add by lia.
    rewrite Z.mod_small by lia. exact IH.
Qed.

End Bytes.

(** ** Arrays: [slice], [set] and the [DataView] accessors *)

Section Arrays.

Lemma firstn_app_len {A : Type} (l1 l2 : list A) (n : nat) :
  n = List.length l1 -> firstn n (l1 ++ l2) = l1.
Proof.
  intros ->. rewrite firstn_app, firstn_all, Nat.sub_diag.
  simpl. apply app_nil_r.
Qed.

Lemma skipn_app_len {A : Type} (l1 l2 : list A) (n : nat) :
  n = List.length l1 -> skipn n (l1 ++ l2) = l2.
Proof.
  intros ->. rewrite skipn_app, skipn_all, Nat.sub_diag. reflexivity.
Qed.

Lemma len_repeat {A : Type} (x : A) (n : nat) : len (repeat x n) = Z.of_nat n.
Proof. unfold len. now rewrite repeat_length. Qed.

Lemma andb_leb_true (a b c d : Z) :
  a <= b -> c <= d -> (a <=? b) && (c <=? d) = true.
Proof.
  intros H1 H2. apply andb_true_iff. split; apply Z.leb_le; assumption.
Qed.

Lemma slice_nonneg (a : Uint8Array) (s e : Z) :
  0 <= s <= e ->
  slice a s e = firstn (Z.to_nat (e - s)) (skipn (Z.to_nat s) a).
Proof.
  intros H. unfold slice, relative_index.
  destruct (Z.ltb_spec s 0); [lia|].
  destruct (Z.ltb_spec e 0); [lia|].
  destruct (Z_le_gt_dec s (len a)) as [Hs|Hs].
  - rewrite (Z.min_l s) by lia.
    destruct (Z_le_gt_dec e (len a)) as [He|He].
    + rewrite Z.min_l by lia. reflexivity.
    + rewrite Z.min_r by lia.
      rewrite !firstn_all2; [reflexivity | |];
        rewrite length_skipn; unfold len in *; lia.
  - rewrite !Z.min_r by lia. rewrite Z.sub_diag. simpl firstn.
    rewrite skipn_all2 by (unfold len in *; lia).
    now rewrite firstn_nil.
Qed.

(** Writing into the zero bytes that follow what has been filled in. *)
Lemma set_fill (pre src : Uint8Array) (k n : nat) (pos : Z) :
  pos = len pre -> k = (List.length src + n)%nat ->
  set (pre ++ repeat x00 k) src pos = Ok ((pre ++ src) ++ repeat x00 n).
Proof.
  intros -> ->. unfold set.
  pose proof (len_nonneg pre).
  rewrite andb_leb_true
    by (rewrite ?len_app, ?len_repeat; unfold len in *; lia).
  rewrite firstn_app_len by (unfold len; lia).
  rewrite repeat_app, (app_assoc pre (repeat _ _)).
  rewrite skipn_app_len; [now rewrite <- app_assoc|].
  rewrite length_app, repeat_length. unfold len. lia.
Qed.

Lemma setUint_fill (width : nat) (pre : Uint8Array) (k n : nat) (pos v : Z) :
  pos = len pre -> k = (width + n)%nat ->
  setUint width (pre ++ repeat x00 k) pos v
  = Ok ((pre ++ be_bytes width v) ++ repeat x00 n).
Proof.
  intros -> ->. unfold setUint.
  pose proof (len_nonneg pre).
  rewrite andb_leb_true
    by (rewrite ?len_app, ?len_repeat; unfold len in *; lia).
  rewrite firstn_app_len by (unfold len; lia).
  rewrite repeat_app, (app_assoc pre (repeat _ _)).
  rewrite skipn_app_len; [now rewrite <- app_assoc|].
  rewrite length_app, repeat_length. unfold len. lia.
Qed.

Lemma DataView_0 (a : Uint8Array) : DataView a 0 = Ok a.
Proof.
  unfold DataView. pose proof (len_nonneg a).
  destruct (Z.leb_spec 0 (len a)); [reflexivity | lia].
Qed.

Lemma getUint_ok (width : nat) (view : Uint8Array) (pos : Z) :
  0 <= pos -> pos + Z.of_nat width <= len view ->
  getUint width view pos
  = Ok (be_value (firstn width (skipn (Z.to_nat pos) view))).
Proof.
  intros H1 H2. unfold getUint.
  destruct (Z.leb_spec 0 pos); [|lia].
  destruct (Z.leb_spec (pos + Z.of_nat width) (len view)); [reflexivity|lia].
Qed.

Lemma getUint_short (width : nat) (view : Uint8Array) (pos : Z) :
  len view < pos + Z.of_nat width -> getUint width view pos = Throw RangeError.
Proof.
  intros H. unfold getUint.
  destruct (Z.leb_spec (pos + Z.of_nat width) (len view)); [lia|].
  now rewrite andb_false_r.
Qed.

(** Reading back a field that lies between [pre] and [post]. *)
Lemma getUint_field (width : nat) (pre field post : Uint8Array) (pos : Z) :
  pos = len pre -> List.length field = width ->
  getUint width (pre ++ field ++ post) pos = Ok (be_value field).
Proof.
  intros -> Hw. pose proof (len_nonneg pre).
  rewrite getUint_ok; [| lia | rewrite !len_app; unfold len in *; lia].
  rewrite skipn_app_len by (unfold len; lia).
  rewrite firstn_app_len by lia. reflexivity.
Qed.

Lemma getUint_result (width : nat) (view : Uint8Array) (pos : Z) :
  getUint width view pos = Throw RangeError
  \/ exists n, getUint width view pos = Ok n /\ 0 <= n.
Proof.
  unfold getUint. destruct (_ && _); [right | left; reflexivity].
  eexists. split; [reflexivity | apply be_value_nonneg].
Qed.

End Arrays.

(** ** The serializer and the builders never throw *)

Section Builders.

Lemma set_fresh (src : Uint8Array) (size : Z) (n : nat) :
  Z.to_nat size = (List.length src + n)%nat ->
  set (new_Uint8Array size) src 0 = Ok (src ++ repeat x00 n).
Proof.
  intros H. unfold new_Uint8Array.
  change (repeat x00 (Z.to_nat size)) with ([] ++ repeat x00 (Z.to_nat size)).
  now rewrite (set_fill [] src _ n 0) by (reflexivity || assumption).
Qed.

Lemma setUint_fresh (width : nat) (size : Z) (n : nat) (v : Z) :
  Z.to_nat size = (width + n)%nat ->
  setUint width (new_Uint8Array size) 0 v = Ok (be_bytes width v ++ repeat x00 n).
Proof.
  intros H. unfold new_Uint8Array.
  change (repeat x00 (Z.to_nat size)) with ([] ++ repeat x00 (Z.to_nat size)).
  now rewrite (setUint_fill width [] _ n 0) by (reflexivity || assumption).
Qed.

Lemma createChunk_bytes (type : js_string) (data : Uint8Array) :
  createChunk type data = Ok (chunk_bytes type data).
Proof.
  unfold createChunk, chunk_bytes, setUint32.
  set (t := TextEncoder_encode type).
  rewrite (setUint_fresh 4 4 0) by reflexivity. cbn [bind repeat].
  rewrite app_nil_r.
  rewrite (set_fresh t _ (List.length data)) by (unfold len; lia).
  cbn [bind].
  rewrite (set_fill t data _ 0) by (rewrite ?repeat_length; lia || reflexivity).
  cbn [bind repeat]. rewrite app_nil_r.
  rewrite (setUint_fresh 4 4 0) by reflexivity. cbn [bind repeat].
  rewrite app_nil_r.
  set (l4 := be_bytes 4 (len data)).
  set (c4 := be_bytes 4 (crc32 (t ++ data))).
  rewrite (set_fresh l4 _ (List.length t + (List.length data + 4)))
    by (subst l4 c4; rewrite !len_be_bytes, length_be_bytes; unfold len; lia).
  cbn [bind].
  rewrite (set_fill l4 t _ (List.length data + 4)) by reflexivity.
  cbn [bind].
  rewrite (set_fill (l4 ++ t) data _ 4)
    by (rewrite ?len_app; reflexivity).
  cbn [bind].
  rewrite (set_fill ((l4 ++ t) ++ data) c4 _ 0)
    by (subst c4; rewrite ?len_app, ?length_be_bytes; reflexivity).
  cbn [bind repeat]. rewrite app_nil_r, <- !app_assoc. reflexivity.
Qed.

Lemma createActlChunk_bytes (numFrames : Z) :
  createActlChunk numFrames = Ok (wire (actl_record numFrames)).
Proof.
  unfold createActlChunk, setUint32.
  rewrite (setUint_fresh 4 8 4) by reflexivity. cbn [bind].
  rewrite (setUint_fill 4 _ _ 0) by (rewrite ?len_be_bytes; reflexivity).
  cbn [bind repeat]. rewrite app_nil_r.
  apply createChunk_bytes.
Qed.

Lemma createFctlChunk_bytes (sequenceNumber width height delay : Z) :
  createFctlChunk sequenceNumber width height delay
  = Ok (wire (fctl_record sequenceNumber width height delay)).
Proof.
  unfold createFctlChunk, setUint32, setUint16, setUint8.
  rewrite (setUint_fresh 4 26 22) by reflexivity. cbn [bind].
  rewrite (setUint_fill 4 _ _ 18)
    by (rewrite ?len_app, ?len_be_bytes; reflexivity). cbn [bind].
  rewrite (setUint_fill 4 _ _ 14)
    by (rewrite ?len_app, ?len_be_bytes; reflexivity). cbn [bind].
  rewrite (setUint_fill 4 _ _ 10)
    by (rewrite ?len_app, ?len_be_bytes; reflexivity). cbn [bind].
  rewrite (setUint_fill 4 _ _ 6)
    by (rewrite ?len_app, ?len_be_bytes; reflexivity). cbn [bind].
  rewrite (setUint_fill 2 _ _ 4)
    by (rewrite ?len_app, ?len_be_bytes; reflexivity). cbn [bind].
  rewrite (setUint_fill 2 _ _ 2)
    by (rewrite ?len_app, ?len_be_bytes; reflexivity). cbn [bind].
  rewrite (setUint_fill 1 _ _ 1)
    by (rewrite ?len_app, ?len_be_bytes; reflexivity). cbn [bind].
  rewrite (setUint_fill 1 _ _ 0)
    by (rewrite ?len_app, ?len_be_bytes; reflexivity). cbn [bind repeat].
  rewrite app_nil_r, createChunk_bytes.
  unfold wire, fctl_record, fctl_data. cbn [type data].
  now rewrite <- !app_assoc.
Qed.

Lemma map_indexed_total {A B : Type} (f : A -> Z -> result B) (g : A -> Z -> B)
  (l : list A) :
  (forall a i, f a i = Ok (g a i)) ->
  forall index, exists bs, map_indexed f l index = Ok bs
                           /\ List.length bs = List.length l.
Proof.
  intros Hf. induction l as [|a l IH]; intros index.
  - exists []. split; reflexivity.
  - destruct (IH (index + 1)) as [bs [Hbs Hlen]].
    exists (g a index :: bs). simpl. rewrite Hf. cbn [bind]. rewrite Hbs.
    cbn [bind]. split; [reflexivity | simpl; now rewrite Hlen].
Qed.

Lemma createFdatChunks_from (idatChunks : list Uint8Array) (start index : Z) :
  map_indexed
    (fun idatChunk index =>
       fdatData <- setUint32 (new_Uint8Array (len idatChunk + 4)) 0
                     (start + index) ;;
       fdatData <- set fdatData idatChunk 4 ;;
       createChunk (str "fdAT") fdatData)
    idatChunks index
  = Ok (map wire (fdat_records idatChunks (start + index))).
Proof.
  revert index. induction idatChunks as [|idat rest IH]; intros index.
  - reflexivity.
  - cbn [map_indexed fdat_records map]. unfold setUint32 at 1.
    rewrite (setUint_fresh 4 _ (List.length idat)) by (unfold len; lia).
    cbn [bind].
    rewrite (set_fill _ idat _ 0)
      by (rewrite ?len_be_bytes, ?Nat.add_0_r; reflexivity).
    cbn [bind repeat]. rewrite app_nil_r, createChunk_bytes. cbn [bind].
    rewrite IH. cbn [bind].
    replace (start + (index + 1)) with (start + index + 1) by lia.
    reflexivity.
Qed.

Lemma createFdatChunks_bytes (idatChunks : list Uint8Array) (start : Z) :
  createFdatChunks idatChunks start
  = Ok (map wire (fdat_records idatChunks start)).
Proof.
  unfold createFdatChunks. rewrite createFdatChunks_from.
  now rewrite Z.add_0_r.
Qed.

Lemma createIdatChunks_bytes (idatChunks : list Uint8Array) (index : Z) :
  map_indexed (fun idatData _ => createChunk (str "IDAT") idatData)
    idatChunks index
  = Ok (map wire (map idat_record idatChunks)).
Proof.
  revert index. induction idatChunks as [|idat rest IH]; intros index.
  - reflexivity.
  - cbn [map_indexed map]. rewrite createChunk_bytes. cbn [bind].
    rewrite IH. reflexivity.
Qed.

Lemma concatenate_loop_fill (arrays : list Uint8Array) (pre : Uint8Array) :
  concatenate_loop arrays
    (pre ++ repeat x00 (List.length (List.concat arrays))) (len pre)
  = Ok (pre ++ List.concat arrays).
Proof.
  revert pre. induction arrays as [|arr rest IH]; intros pre.
  - simpl. reflexivity.
  - cbn [concatenate_loop List.concat].
    rewrite (set_fill pre arr _ (List.length (List.concat rest)))
      by (rewrite ?length_app; reflexivity).
    cbn [bind]. rewrite <- len_app, IH. now rewrite <- app_assoc.
Qed.

Lemma concatenateUint8Arrays_concat (arrays : list Uint8Array) :
  concatenateUint8Arrays arrays = Ok (List.concat arrays).
Proof.
  unfold concatenateUint8Arrays, new_Uint8Array.
  assert (H : forall l acc,
            fold_left (fun sum (arr : Uint8Array) => sum + len arr) l acc
            = acc + len (List.concat l)).
  { induction l as [|a l IH]; intros acc; simpl.
    - rewrite len_nil. lia.
    - rewrite IH, len_app. lia. }
  rewrite H. simpl Z.add.
  replace (Z.to_nat (len (List.concat arrays)))
    with (List.length (List.concat arrays)) by (unfold len; lia).
  apply (concatenate_loop_fill arrays []).
Qed.

End Builders.

(** ** The checksum: the table-driven loop against the bit-serial CRC-32 *)

Section Checksum.

Ltac bits i Hi := apply Z.bits_inj'; intros i Hi.

Lemma ToUint32_range (z : Z) : 0 <= ToUint32 z < 2 ^ 32.
Proof. unfold ToUint32. apply Z.mod_pos_bound. lia. Qed.

Lemma ToUint32_small (z : Z) : 0 <= z < 2 ^ 32 -> ToUint32 z = z.
Proof. intros H. unfold ToUint32. now apply Z.mod_small. Qed.

Lemma ToUint32_ToInt32 (z : Z) : ToUint32 (ToInt32 z) = ToUint32 z.
Proof.
  unfold ToUint32, ToInt32.
  pose proof (Z.div_mod (z + 2 ^ 31) (2 ^ 32) ltac:(lia)) as H.
  replace ((z + 2 ^ 31) mod 2 ^ 32 - 2 ^ 31)
    with (z + (- ((z + 2 ^ 31) / 2 ^ 32)) * 2 ^ 32) by lia.
  apply Z.mod_add. lia.
Qed.

Lemma ToUint32_testbit (z i : Z) :
  Z.testbit (ToUint32 z) i = (i <? 32) && Z.testbit z i.
Proof. unfold ToUint32. apply Z.testbit_mod_pow2. lia. Qed.

Lemma ToInt32_testbit (z i : Z) :
  i < 32 -> Z.testbit (ToInt32 z) i = Z.testbit z i.
Proof.
  intros Hi.
  pose proof (ToUint32_testbit (ToInt32 z) i) as H1.
  pose proof (ToUint32_testbit z i) as H2.
  rewrite ToUint32_ToInt32 in H1. rewrite H2 in H1.
  destruct (Z.ltb_spec i 32); [|lia]. simpl in H1. now symmetry.
Qed.

Lemma ToUint32_lxor (a b : Z) :
  ToUint32 (Z.lxor a b) = Z.lxor (ToUint32 a) (ToUint32 b).
Proof.
  bits i Hi. rewrite Z.lxor_spec, !ToUint32_testbit, Z.lxor_spec.
  destruct (i <? 32); reflexivity.
Qed.

Lemma ToUint32_bxor (a b : Z) :
  ToUint32 (bxor a b) = Z.lxor (ToUint32 a) (ToUint32 b).
Proof. unfold bxor. now rewrite ToUint32_lxor, !ToUint32_ToInt32. Qed.

Lemma lxor_range (a b : Z) :
  0 <= a < 2 ^ 32 -> 0 <= b < 2 ^ 32 -> 0 <= Z.lxor a b < 2 ^ 32.
Proof.
  intros Ha Hb.
  rewrite <- (ToUint32_small a Ha), <- (ToUint32_small b Hb), <- ToUint32_lxor.
  apply ToUint32_range.
Qed.

Lemma shiftr_range (a n : Z) :
  0 <= n -> 0 <= a < 2 ^ 32 -> 0 <= Z.shiftr a n < 2 ^ 32.
Proof.
  intros Hn Ha. rewrite Z.shiftr_div_pow2 by lia.
  assert (0 < 2 ^ n) by (apply Z.pow_pos_nonneg; lia).
  split; [apply Z.div_pos; lia|].
  apply Z.div_lt_upper_bound; nia.
Qed.

Lemma crc32_bit_range (c : Z) : 0 <= c < 2 ^ 32 -> 0 <= crc32_bit c < 2 ^ 32.
Proof.
  intros H. unfold crc32_bit.
  pose proof (shiftr_range c 1 ltac:(lia) H).
  destruct (Z.testbit c 0); [apply lxor_range; lia | assumption].
Qed.

Lemma iterate_crc32_bit_range (n : nat) (c : Z) :
  0 <= c < 2 ^ 32 -> 0 <= iterate n crc32_bit c < 2 ^ 32.
Proof.
  revert c. induction n as [|n IH]; intros c H; simpl; [assumption|].
  apply IH, crc32_bit_range, H.
Qed.

(** The table loop computes, on 32-bit patterns, one bit of the CRC. *)
Lemma crcTable_step_bit (c : Z) :
  ToUint32 (crcTable_step c) = crc32_bit (ToUint32 c).
Proof.
  unfold crcTable_step, crc32_bit.
  assert (Hb : truthy (band c 1) = Z.testbit (ToUint32 c) 0).
  { unfold truthy, band. change (ToInt32 1) with (Z.ones 1).
    rewrite Z.land_ones by lia. change (2 ^ 1) with 2.
    rewrite <- Z.bit0_mod, ToInt32_testbit by lia.
    rewrite ToUint32_testbit. change (0 <? 32) with true. cbn [andb].
    destruct (Z.testbit c 0); reflexivity. }
  rewrite Hb.
  assert (Hs : ushr c 1 = Z.shiftr (ToUint32 c) 1) by reflexivity.
  pose proof (shiftr_range (ToUint32 c) 1 ltac:(lia) (ToUint32_range c)) as Hr.
  destruct (Z.testbit (ToUint32 c) 0).
  - rewrite ToUint32_bxor, Hs, (ToUint32_small (Z.shiftr _ _)) by exact Hr.
    apply Z.lxor_comm.
  - rewrite Hs. now apply ToUint32_small.
Qed.

Lemma iterate_crcTable_step (n : nat) (c : Z) :
  ToUint32 (iterate n crcTable_step c) = iterate n crc32_bit (ToUint32 c).
Proof.
  revert c. induction n as [|n IH]; intros c; simpl; [reflexivity|].
  now rewrite IH, crcTable_step_bit.
Qed.

Lemma crcTable_made : crcTable = make_crcTable.
Proof. vm_compute. reflexivity. Qed.

(** Every entry of the table is eight bit steps of its index. *)
Lemma crcTable_at_spec (k : Z) :
  0 <= k < 256 -> crcTable_at k = iterate 8 crc32_bit k.
Proof.
  intros Hk. unfold crcTable_at. rewrite crcTable_made. unfold make_crcTable.
  set (f := fun i => ToUint32 (iterate 8 crcTable_step (Z.of_nat i))).
  rewrite (nth_indep _ 0 (f O)) by (rewrite length_map, length_seq; lia).
  rewrite map_nth, seq_nth by lia.
  unfold f. rewrite iterate_crcTable_step. simpl Nat.add.
  rewrite Z2Nat.id by lia. rewrite ToUint32_small by lia. reflexivity.
Qed.

Lemma crc32_bit_lxor (a b : Z) :
  crc32_bit (Z.lxor a b) = Z.lxor (crc32_bit a) (crc32_bit b).
Proof.
  unfold crc32_bit. rewrite Z.lxor_spec, Z.shiftr_lxor.
  destruct (Z.testbit a 0), (Z.testbit b 0); simpl xorb; bits i Hi;
    rewrite ?Z.lxor_spec;
    destruct (Z.testbit (Z.shiftr a 1) i), (Z.testbit (Z.shiftr b 1) i),
      (Z.testbit 3988292384 i); reflexivity.
Qed.

Lemma iterate_crc32_bit_lxor (n : nat) (a b : Z) :
  iterate n crc32_bit (Z.lxor a b)
  = Z.lxor (iterate n crc32_bit a) (iterate n crc32_bit b).
Proof.
  revert a b. induction n as [|n IH]; intros a b; simpl; [reflexivity|].
  now rewrite crc32_bit_lxor, IH.
Qed.

(** While the low bits are zero the register is only shifted. *)
Lemma iterate_crc32_bit_shift (n : nat) (c : Z) :
  (forall i, 0 <= i < Z.of_nat n -> Z.testbit c i = false) ->
  iterate n crc32_bit c = Z.shiftr c (Z.of_nat n).
Proof.
  revert c. induction n as [|n IH]; intros c Hlow.
  - simpl. now rewrite Z.shiftr_0_r.
  - cbn [iterate]. unfold crc32_bit at 2. rewrite Hlow by lia.
    rewrite IH.
    + rewrite Z.shiftr_shiftr by lia. f_equal. lia.
    + intros i Hi. rewrite Z.shiftr_spec by lia. apply Hlow. lia.
Qed.

(** The step every table-driven CRC rests on: eight bit steps of a
    register are its upper part shifted, combined with the table entry of
    its low byte. *)
Lemma crc32_table_step (x : Z) :
  iterate 8 crc32_bit x
  = Z.lxor (Z.shiftr x 8) (iterate 8 crc32_bit (Z.land x 255)).
Proof.
  assert (Hsplit : x = Z.lxor (Z.shiftl (Z.shiftr x 8) 8) (Z.land x 255)).
  { bits i Hi. rewrite Z.lxor_spec, Z.land_spec, Z.shiftl_spec by lia.
    change 255 with (Z.ones 8).
    destruct (Z.ltb_spec i 8).
    - rewrite (Z.testbit_neg_r _ (i - 8)) by lia.
      rewrite Z.ones_spec_low by lia. now rewrite andb_true_r.
    - rewrite Z.shiftr_spec by lia. rewrite Z.ones_spec_high by lia.
      rewrite andb_false_r, xorb_false_r. f_equal. lia. }
  rewrite Hsplit at 1. rewrite iterate_crc32_bit_lxor. f_equal.
  rewrite iterate_crc32_bit_shift.
  - change (Z.of_nat 8) with 8. rewrite Z.shiftr_shiftl_l by lia.
    now rewrite Z.sub_diag, Z.shiftl_0_r.
  - intros i Hi. rewrite Z.shiftl_spec by lia. apply Z.testbit_neg_r.
    change (Z.of_nat 8) with 8 in Hi. lia.
Qed.

Lemma crc32_step_byte (crc : Z) (b : byte) :
  ToUint32 (crc32_step crc b) = crc32_byte (ToUint32 crc) b.
Proof.
  unfold crc32_step, crc32_byte.
  pose proof (byte_val_range b) as Hv.
  set (v := byte_val b) in *. set (u := ToUint32 crc).
  assert (Hidx : band (bxor crc v) 255 = Z.land (Z.lxor u v) 255).
  { unfold band, bxor. change (ToInt32 255) with 255.
    bits i Hi. rewrite !Z.land_spec. change 255 with (Z.ones 8).
    destruct (Z.ltb_spec i 8).
    - rewrite !ToInt32_testbit, !Z.lxor_spec, !ToInt32_testbit by lia.
      subst u. rewrite ToUint32_testbit.
      destruct (Z.ltb_spec i 32); [reflexivity | lia].
    - rewrite Z.ones_spec_high by lia. now rewrite !andb_false_r. }
  assert (Hrange : 0 <= Z.land (Z.lxor u v) 255 < 256).
  { change 255 with (Z.ones 8). rewrite Z.land_ones by lia.
    apply Z.mod_pos_bound. lia. }
  rewrite Hidx, crcTable_at_spec by exact Hrange.
  rewrite ToUint32_bxor.
  assert (Hu : ushr crc 8 = Z.shiftr u 8) by reflexivity.
  rewrite Hu.
  rewrite (ToUint32_small (Z.shiftr u 8))
    by (apply shiftr_range; [lia | apply ToUint32_range]).
  rewrite (ToUint32_small (iterate _ _ _))
    by (apply iterate_crc32_bit_range; lia).
  rewrite (crc32_table_step (Z.lxor u v)), Z.shiftr_lxor.
  replace (Z.shiftr v 8) with 0; [now rewrite Z.lxor_0_r|].
  rewrite Z.shiftr_div_pow2 by lia. symmetry. apply Z.div_small. lia.
Qed.

Lemma fold_crc32_step (data : Uint8Array) (crc : Z) :
  ToUint32 (fold_left crc32_step data crc)
  = fold_left crc32_byte data (ToUint32 crc).
Proof.
  revert crc. induction data as [|b data IH]; intros crc; simpl.
  - reflexivity.
  - now rewrite IH, crc32_step_byte.
Qed.

Lemma crc32_is_reference (data : Uint8Array) :
  crc32 data = crc32_reference data.
Proof.
  unfold crc32, crc32_reference.
  change (ushr ?a 0) with (Z.shiftr (ToUint32 a) 0).
  rewrite Z.shiftr_0_r, ToUint32_bxor, fold_crc32_step. reflexivity.
Qed.

Lemma crc32_range (data : Uint8Array) : 0 <= crc32 data < 2 ^ 32.
Proof.
  unfold crc32. change (ushr ?a 0) with (Z.shiftr (ToUint32 a) 0).
  rewrite Z.shiftr_0_r. apply ToUint32_range.
Qed.

End Checksum.

(** ** The parser on framed chunks *)

Section Parser.

Lemma extract_loop_eq (pngData : Uint8Array) (offset : Z)
  (chunks : list PNGChunk) :
  extract_loop pngData offset chunks =
  if offset <? len pngData then
    match chunkLength_at pngData offset with
    | Throw e => Throw e
    | Ok chunkLength =>
        let chunkType :=
          TextDecoder_decode (slice pngData (offset + 4) (offset + 8)) in
        let chunkData := slice pngData (offset + 8) (offset + 8 + chunkLength) in
        let chunks' := chunks ++ [{| type := chunkType; data := chunkData |}] in
        if string_eqb chunkType (str "IEND") then Ok chunks'
        else extract_loop pngData (offset + (chunkLength + 12)) chunks'
    end
  else Ok chunks.
Proof.
  rewrite extract_loop_equation_1. unfold extract_loop_unfold_clause_1.
  destruct (Z_lt_dec offset (len pngData)) as [Hlt|Hge].
  - apply Z.ltb_lt in Hlt as Hb. rewrite Hb.
    unfold extract_loop_unfold_clause_1_clause_2, Logic.inspect.
    destruct (chunkLength_at pngData offset); reflexivity.
  - apply Z.ltb_nlt in Hge. rewrite Hge. reflexivity.
Qed.

Lemma extract_loop_done (pngData : Uint8Array) (offset : Z)
  (chunks : list PNGChunk) :
  len pngData <= offset -> extract_loop pngData offset chunks = Ok chunks.
Proof.
  intros H. rewrite extract_loop_eq.
  destruct (Z.ltb_spec offset (len pngData)); [lia | reflexivity].
Qed.

Lemma chunkLength_at_ok (pngData : Uint8Array) (offset : Z) :
  0 <= offset -> offset + 4 <= len pngData ->
  chunkLength_at pngData offset
  = Ok (be_value (firstn 4 (skipn (Z.to_nat offset) pngData))).
Proof.
  intros H1 H2. unfold chunkLength_at, DataView.
  rewrite andb_leb_true by lia. cbn [bind]. unfold getUint32.
  rewrite getUint_ok; [reflexivity | lia |].
  unfold len in *. rewrite length_skipn. lia.
Qed.

Lemma chunkLength_at_short (pngData : Uint8Array) (offset : Z) :
  0 <= offset <= len pngData -> len pngData < offset + 4 ->
  chunkLength_at pngData offset = Throw RangeError.
Proof.
  intros H1 H2. unfold chunkLength_at, DataView.
  rewrite andb_leb_true by lia. cbn [bind]. unfold getUint32.
  apply getUint_short. unfold len in *. rewrite length_skipn. lia.
Qed.

Lemma chunkLength_at_result (pngData : Uint8Array) (offset : Z) :
  chunkLength_at pngData offset = Throw RangeError
  \/ exists n, chunkLength_at pngData offset = Ok n.
Proof.
  unfold chunkLength_at, DataView. destruct (_ && _); [|now left].
  cbn [bind]. unfold getUint32.
  destruct (getUint_result 4 (skipn (Z.to_nat offset) pngData) 0)
    as [H|[n [H _]]]; rewrite H; [now left | right; now exists n].
Qed.

Lemma slice_at (buf pre field post : Uint8Array) (s e : Z) :
  buf = pre ++ field ++ post -> s = len pre -> e = s + len field ->
  slice buf s e = field.
Proof.
  intros -> -> ->. pose proof (len_nonneg pre). pose proof (len_nonneg field).
  rewrite slice_nonneg by lia.
  rewrite skipn_app_len by (unfold len; lia).
  apply firstn_app_len. unfold len. lia.
Qed.

Lemma len_raw_bytes (rc : RawChunk) :
  framed rc -> len (raw_bytes rc) = len (payload rc) + 12.
Proof.
  intros [Ht [Hc _]]. unfold raw_bytes.
  rewrite !len_app, len_be_bytes. unfold len. lia.
Qed.

(** One round of the loop on a framed chunk. *)
Lemma extract_loop_chunk (buf pre rest : Uint8Array) (rc : RawChunk)
  (acc : list PNGChunk) :
  buf = pre ++ raw_bytes rc ++ rest -> framed rc ->
  extract_loop buf (len pre) acc =
  if is_type "IEND" (parsed rc) then Ok (acc ++ [parsed rc])
  else extract_loop buf (len pre + len (raw_bytes rc)) (acc ++ [parsed rc]).
Proof.
  intros Hbuf Hf. pose proof (len_raw_bytes rc Hf) as Hlen.
  destruct Hf as [Ht [Hc Hp]].
  pose proof (len_nonneg pre). pose proof (len_nonneg (payload rc)).
  pose proof (len_nonneg rest).
  assert (Hbl : len buf = len pre + len (raw_bytes rc) + len rest)
    by (subst buf; rewrite !len_app; lia).
  rewrite extract_loop_eq.
  destruct (Z.ltb_spec (len pre) (len buf)); [|lia].
  rewrite chunkLength_at_ok by lia.
  assert (Hl : firstn 4 (skipn (Z.to_nat (len pre)) buf)
               = be_bytes 4 (len (payload rc))).
  { subst buf. rewrite skipn_app_len by (unfold len; lia).
    unfold raw_bytes. rewrite <- app_assoc.
    apply firstn_app_len. now rewrite length_be_bytes. }
  rewrite Hl, be_value_be_bytes.
  change (256 ^ Z.of_nat 4) with (2 ^ 32). rewrite Z.mod_small by lia.
  cbv zeta.
  rewrite (slice_at buf (pre ++ be_bytes 4 (len (payload rc))) (tag rc)
             (payload rc ++ check rc ++ rest));
    [ | subst buf; unfold raw_bytes; now rewrite <- !app_assoc
      | rewrite len_app, len_be_bytes; lia
      | unfold len; lia ].
  rewrite (slice_at buf ((pre ++ be_bytes 4 (len (payload rc))) ++ tag rc)
             (payload rc) (check rc ++ rest));
    [ | subst buf; unfold raw_bytes; now rewrite <- !app_assoc
      | rewrite !len_app, len_be_bytes; unfold len; lia
      | lia ].
  unfold is_type, parsed. cbn [type].
  destruct (string_eqb _ _); [reflexivity|].
  f_equal. lia.
Qed.

Lemma through_IEND_app_found (cs more : list PNGChunk) (stream : list PNGChunk) :
  through_IEND cs = (stream, true) -> through_IEND (cs ++ more) = (stream, true).
Proof.
  revert stream. induction cs as [|c cs IH]; intros stream; simpl.
  - discriminate.
  - destruct (is_type "IEND" c); [trivial|].
    destruct (through_IEND cs) as [s found] eqn:E.
    intros H. injection H as <- ->. now rewrite (IH s eq_refl).
Qed.

Lemma through_IEND_app_missing (cs more : list PNGChunk) :
  through_IEND cs = (cs, false) ->
  through_IEND (cs ++ more)
  = (cs ++ fst (through_IEND more), snd (through_IEND more)).
Proof.
  induction cs as [|c cs IH]; simpl.
  - intros _. now destruct (through_IEND more).
  - destruct (is_type "IEND" c); [discriminate|].
    destruct (through_IEND cs) as [s found] eqn:E.
    intros H. injection H as -> ->. rewrite (IH eq_refl).
    reflexivity.
Qed.

Lemma through_IEND_missing (cs : list PNGChunk) :
  forallb (fun c => negb (is_type "IEND" c)) cs = true ->
  through_IEND cs = (cs, false).
Proof.
  induction cs as [|c cs IH]; simpl; [reflexivity|].
  destruct (is_type "IEND" c); simpl; [discriminate|].
  intros H. now rewrite (IH H).
Qed.

(** The loop over a run of framed chunks: it stops behind the first [IEND]
    or goes on behind the run. *)
Lemma extract_loop_chunks (rcs : list RawChunk) :
  Forall framed rcs ->
  forall (buf pre rest : Uint8Array) (acc : list PNGChunk),
  buf = pre ++ flat_map raw_bytes rcs ++ rest ->
  extract_loop buf (len pre) acc =
  if snd (through_IEND (map parsed rcs))
  then Ok (acc ++ fst (through_IEND (map parsed rcs)))
  else extract_loop buf (len pre + len (flat_map raw_bytes rcs))
         (acc ++ fst (through_IEND (map parsed rcs))).
Proof.
  induction 1 as [|rc rcs Hrc _ IH]; intros buf pre rest acc Hbuf.
  - simpl. rewrite len_nil, Z.add_0_r, app_nil_r. reflexivity.
  - cbn [flat_map map through_IEND] in *.
    rewrite (extract_loop_chunk buf pre (flat_map raw_bytes rcs ++ rest) rc)
      by (subst buf; rewrite <- ?app_assoc; auto).
    destruct (is_type "IEND" (parsed rc)); [reflexivity|].
    rewrite <- len_app.
    rewrite (IH buf (pre ++ raw_bytes rc) rest)
      by (subst buf; now rewrite <- !app_assoc).
    destruct (through_IEND (map parsed rcs)) as [s found]. cbn [fst snd].
    rewrite <- !app_assoc. cbn [app].
    destruct found; [reflexivity|].
    f_equal. rewrite !len_app. lia.
Qed.

End Parser.

(** ** The assembler in closed form *)

Section Assembler.

Lemma copy_before_IDAT_bytes (cs : list PNGChunk) (chunks : list Uint8Array) :
  copy_before_IDAT cs chunks = Ok (chunks ++ map wire (before_IDAT cs)).
Proof.
  revert chunks. induction cs as [|c cs IH]; intros chunks; simpl.
  - now rewrite app_nil_r.
  - unfold is_IDAT. destruct (string_eqb (type c) (str "IDAT")).
    + now rewrite app_nil_r.
    + rewrite createChunk_bytes. cbn [bind]. rewrite IH.
      now rewrite <- app_assoc.
Qed.

Lemma process_images_records (width height delay : Z)
  (images : list Uint8Array) :
  forall (i : Z) (st : frame_state),
  process_images width height delay i images st =
  (r <- frame_records width height delay i (sequenceNumber st) images ;;
   Ok {| chunks := chunks st ++ map wire (fst r); sequenceNumber := snd r |}).
Proof.
  induction images as [|image rest IH]; intros i st.
  - simpl. rewrite app_nil_r. now destruct st.
  - cbn [process_images frame_records]. unfold process_image, idat_payloads.
    rewrite createFctlChunk_bytes. cbn [bind].
    destruct (extractAllChunks image) as [imageChunks|e]; [|reflexivity].
    cbn [bind].
    set (idats := map data (filter is_IDAT imageChunks)).
    destruct (i =? 0).
    + rewrite createIdatChunks_bytes. cbn [bind]. rewrite IH.
      cbn [chunks sequenceNumber].
      destruct (frame_records _ _ _ _ _ rest) as [[recs next]|e];
        [|reflexivity].
      cbn [bind fst snd map]. do 2 f_equal.
      rewrite map_app, <- !app_assoc. reflexivity.
    + rewrite createFdatChunks_bytes. cbn [bind]. rewrite IH.
      cbn [chunks sequenceNumber].
      destruct (frame_records _ _ _ _ _ rest) as [[recs next]|e];
        [|reflexivity].
      cbn [bind fst snd map]. do 2 f_equal.
      rewrite map_app, <- !app_assoc. reflexivity.
Qed.

(** What [createAPNG] collects: the signature, then the wire form of the
    copied chunks, the animation-control record, the frame records and the
    end marker. *)
Lemma createAPNG_chunks_records (images : list Uint8Array) (delay : Z) :
  createAPNG_chunks images delay =
  (pngData <- defined (nth_error images 0) ;;
   firstImageChunks <- extractAllChunks pngData ;;
   match find (is_type "IHDR") firstImageChunks with
   | None => Throw IHDR_not_found
   | Some ihdrChunk =>
       width <- getUint32 (data ihdrChunk) 0 ;;
       height <- getUint32 (data ihdrChunk) 4 ;;
       r <- frame_records width height delay 0 0 images ;;
       Ok (PNG_SIGNATURE
             :: map wire (before_IDAT firstImageChunks
                            ++ [actl_record (len images)] ++ fst r
                            ++ [iend_record]))
   end).
Proof.
  unfold createAPNG_chunks.
  destruct (defined (nth_error images 0)) as [pngData|e]; [|reflexivity].
  cbn [bind].
  destruct (extractAllChunks pngData) as [cs|e]; [|reflexivity].
  cbn [bind]. fold (is_type "IHDR").
  destruct (find (is_type "IHDR") cs) as [ihdr|]; [|reflexivity].
  rewrite DataView_0. cbn [bind].
  destruct (getUint32 (data ihdr) 0) as [width|e]; [|reflexivity].
  cbn [bind].
  destruct (getUint32 (data ihdr) 4) as [height|e]; [|reflexivity].
  cbn [bind].
  rewrite copy_before_IDAT_bytes, createActlChunk_bytes. cbn [bind].
  rewrite process_images_records. cbn [chunks sequenceNumber].
  destruct (frame_records width height delay 0 0 images) as [[recs next]|e];
    [|reflexivity].
  cbn [bind fst snd chunks]. rewrite createChunk_bytes. cbn [bind].
  f_equal. cbn [app]. f_equal.
  rewrite !map_app, <- !app_assoc. cbn [map app].
  now rewrite map_app.
Qed.

Lemma createAPNG_concat (images : list Uint8Array) (delay : Z) :
  createAPNG images delay =
  (chunks <- createAPNG_chunks images delay ;; Ok (List.concat chunks)).
Proof.
  unfold createAPNG.
  destruct (createAPNG_chunks images delay); [|reflexivity].
  cbn [bind]. apply concatenateUint8Arrays_concat.
Qed.

Lemma extractAllChunks_throws (pngData : Uint8Array) (e : exn) :
  extractAllChunks pngData = Throw e -> e = RangeError.
Proof.
  unfold extractAllChunks. generalize (@nil PNGChunk) as acc.
  generalize 8 as offset. intros offset acc.
  remember (Z.to_nat (len pngData - offset)) as m eqn:Hm.
  revert offset acc Hm.
  induction m as [m IH] using lt_wf_ind. intros offset acc Hm.
  rewrite extract_loop_eq.
  destruct (Z.ltb_spec offset (len pngData)); [|discriminate].
  destruct (chunkLength_at_result pngData offset) as [Hr|[n Hr]]; rewrite Hr.
  - intros H'. now injection H' as <-.
  - pose proof (chunkLength_at_nonneg _ _ _ Hr). cbv zeta.
    destruct (string_eqb _ _); [discriminate|].
    apply (IH (Z.to_nat (len pngData - (offset + (n + 12))))); [lia | reflexivity].
Qed.

Lemma loop_state_offset (pngData : Uint8Array) (offset : Z)
  (chunks : list PNGChunk) :
  loop_state pngData offset chunks -> 8 <= offset.
Proof.
  induction 1 as [|offset n chunks _ IH _ Hn _]; [lia|].
  pose proof (chunkLength_at_nonneg _ _ _ Hn). lia.
Qed.

(** Where the loop fails: in a state it has reached, with one to three
    bytes left for the length field. *)
Lemma extract_loop_throws_at (pngData : Uint8Array) (e : exn) :
  forall (offset : Z) (chunks : list PNGChunk),
  loop_state pngData offset chunks ->
  extract_loop pngData offset chunks = Throw e ->
  e = RangeError
  /\ exists (last : Z) (before : list PNGChunk),
       loop_state pngData last before
       /\ 0 < len pngData - last < 4
       /\ chunkLength_at pngData last = Throw RangeError.
Proof.
  intros offset chunks.
  remember (Z.to_nat (len pngData - offset)) as m eqn:Hm.
  revert offset chunks Hm.
  induction m as [m IH] using lt_wf_ind. intros offset chunks Hm Hst.
  pose proof (loop_state_offset _ _ _ Hst) as H8.
  rewrite extract_loop_eq.
  destruct (Z.ltb_spec offset (len pngData)) as [Hlt|]; [|discriminate].
  destruct (chunkLength_at_result pngData offset) as [Hr|[n Hr]]; rewrite Hr.
  - intros H'. injection H' as <-. split; [reflexivity|].
    exists offset, chunks. split; [exact Hst|]. split; [|exact Hr].
    split; [lia|].
    destruct (Z_lt_dec (len pngData - offset) 4) as [|Hroom]; [assumption|].
    rewrite chunkLength_at_ok in Hr by lia. discriminate.
  - pose proof (chunkLength_at_nonneg _ _ _ Hr). cbv zeta.
    destruct (string_eqb _ _) eqn:Et; [discriminate|].
    apply (IH (Z.to_nat (len pngData - (offset + (n + 12)))));
      [lia | reflexivity |].
    now apply loop_step.
Qed.

Lemma frame_records_throws (width height delay : Z) (images : list Uint8Array) :
  forall (i s : Z) (e : exn),
  frame_records width height delay i s images = Throw e -> e = RangeError.
Proof.
  induction images as [|image rest IH]; intros i s e; [discriminate|].
  cbn [frame_records]. unfold idat_payloads.
  destruct (extractAllChunks image) as [cs|e'] eqn:E.
  - cbn [bind].
    destruct (frame_records _ _ _ _ _ rest) as [r|e'] eqn:E'; [discriminate|].
    cbn [bind]. intros H. injection H as <-. eapply IH, E'.
  - cbn [bind]. intros H. injection H as <-.
    eapply extractAllChunks_throws, E.
Qed.

End Assembler.

(** ** Text: ASCII tags pass through the decoder and the encoder unchanged *)

Section Text.

Lemma encode_ascii (s : js_string) :
  Forall (fun c => 0 <= c < 128) s -> TextEncoder_encode s = map byte_of s.
Proof.
  induction 1 as [|c s Hc _ IH]; [reflexivity|].
  cbn [TextEncoder_encode flat_map map]. fold (TextEncoder_encode s).
  rewrite IH. unfold encode_code_point.
  destruct (Z.ltb_spec c 128); [reflexivity | lia].
Qed.

Lemma strip_bom_ascii (bs : list byte) :
  Forall (fun b => byte_val b < 128) bs -> strip_bom bs = bs.
Proof.
  intros H. destruct bs as [|b bs]; [reflexivity|].
  inversion H as [|? ? Hb _]; subst.
  destruct b; try reflexivity. vm_compute in Hb. discriminate.
Qed.

Lemma utf8_decode_ascii (bs : list byte) :
  Forall (fun b => byte_val b < 128) bs ->
  utf8_decode bs utf8_initial = map byte_val bs.
Proof.
  induction 1 as [|b bs Hb _ IH]; [reflexivity|].
  cbn [utf8_decode utf8_initial bytes_left map]. unfold utf8_lead.
  destruct (Z.leb_spec (byte_val b) 127); [|lia].
  cbn [app]. now rewrite IH.
Qed.

Lemma decode_ascii (bs : list byte) :
  Forall (fun b => byte_val b < 128) bs ->
  TextDecoder_decode bs = map byte_val bs.
Proof.
  intros H. unfold TextDecoder_decode.
  rewrite strip_bom_ascii by exact H. now apply utf8_decode_ascii.
Qed.

Lemma encode_decode_ascii (bs : list byte) :
  Forall (fun b => byte_val b < 128) bs ->
  TextEncoder_encode (TextDecoder_decode bs) = bs.
Proof.
  intros H. rewrite decode_ascii by exact H.
  rewrite encode_ascii.
  - rewrite map_map. rewrite <- (map_id bs) at 2.
    apply map_ext. intros b. apply byte_of_val.
  - apply Forall_map. eapply Forall_impl; [|exact H].
    intros b Hb. pose proof (byte_val_range b). cbv beta in Hb. lia.
Qed.

Lemma letters_ascii (bs : list byte) :
  forallb is_letter bs = true -> Forall (fun b => byte_val b < 128) bs.
Proof.
  intros H. apply Forall_forall. intros b Hin.
  rewrite forallb_forall in H. specialize (H b Hin).
  unfold is_letter in H. cbv zeta in H.
  apply orb_true_iff in H. destruct H as [H|H];
    apply andb_true_iff in H; destruct H as [_ H]; apply Z.leb_le in H; lia.
Qed.

End Text.

(** ** How [createAPNG] ends *)

Section Outcome.

Lemma createAPNG_records (images : list Uint8Array) (delay : Z) :
  createAPNG images delay =
  (pngData <- defined (nth_error images 0) ;;
   firstImageChunks <- extractAllChunks pngData ;;
   match find (is_type "IHDR") firstImageChunks with
   | None => Throw IHDR_not_found
   | Some ihdrChunk =>
       width <- getUint32 (data ihdrChunk) 0 ;;
       height <- getUint32 (data ihdrChunk) 4 ;;
       r <- frame_records width height delay 0 0 images ;;
       Ok (PNG_SIGNATURE
             ++ flat_map wire (before_IDAT firstImageChunks
                                 ++ [actl_record (len images)] ++ fst r
                                 ++ [iend_record]))
   end).
Proof.
  rewrite createAPNG_concat, createAPNG_chunks_records.
  destruct (defined (nth_error images 0)) as [pngData|e]; [|reflexivity].
  cbn [bind].
  destruct (extractAllChunks pngData) as [cs|e]; [|reflexivity].
  cbn [bind].
  destruct (find (is_type "IHDR") cs) as [ihdr|]; [|reflexivity].
  destruct (getUint32 (data ihdr) 0) as [width|e]; [|reflexivity].
  cbn [bind].
  destruct (getUint32 (data ihdr) 4) as [height|e]; [|reflexivity].
  cbn [bind].
  destruct (frame_records width height delay 0 0 images) as [r|e];
    [|reflexivity].
  cbn [bind List.concat]. now rewrite flat_map_concat_map.
Qed.

Lemma getUint32_throws (view : Uint8Array) (pos : Z) (e : exn) :
  getUint32 view pos = Throw e -> e = RangeError.
Proof.
  unfold getUint32.
  destruct (getUint_result 4 view pos) as [H|[n [H _]]]; rewrite H;
    [intros H'; now injection H' as <- | discriminate].
Qed.

(** The three ways [createAPNG] fails. *)
Lemma createAPNG_throws (images : list Uint8Array) (delay : Z) (e : exn) :
  createAPNG images delay = Throw e ->
  (e = TypeError /\ images = [])
  \/ (e = RangeError /\ images <> [])
  \/ (e = IHDR_not_found
      /\ exists firstImage rest cs,
           images = firstImage :: rest
           /\ extractAllChunks firstImage = Ok cs
           /\ find (is_type "IHDR") cs = None).
Proof.
  rewrite createAPNG_records.
  destruct images as [|firstImage rest].
  - cbn. intros H. injection H as <-. now left.
  - cbn [nth_error defined bind].
    assert (Hne : firstImage :: rest <> []) by discriminate.
    destruct (extractAllChunks firstImage) as [cs|e'] eqn:E.
    + cbn [bind].
      destruct (find (is_type "IHDR") cs) as [ihdr|] eqn:F.
      * destruct (getUint32 (data ihdr) 0) as [width|e'] eqn:W;
          [|cbn [bind]; intros H; injection H as <-;
            apply getUint32_throws in W; subst; right; now left].
        cbn [bind].
        destruct (getUint32 (data ihdr) 4) as [height|e'] eqn:Hh;
          [|cbn [bind]; intros H; injection H as <-;
            apply getUint32_throws in Hh; subst; right; now left].
        cbn [bind].
        destruct (frame_records _ _ _ _ _ _) as [r|e'] eqn:R;
          [discriminate|].
        cbn [bind]. intros H. injection H as <-.
        apply frame_records_throws in R. subst. right. now left.
      * intros H. injection H as <-. right. right. split; [reflexivity|].
        now exists firstImage, rest, cs.
    + cbn [bind]. intros H. injection H as <-.
      apply extractAllChunks_throws in E. subst. right. now left.
Qed.

Lemma createAPNG_headerless (firstImage : Uint8Array)
  (rest : list Uint8Array) (cs : list PNGChunk) (delay : Z) :
  extractAllChunks firstImage = Ok cs -> find (is_type "IHDR") cs = None ->
  createAPNG (firstImage :: rest) delay = Throw IHDR_not_found.
Proof.
  intros E F. rewrite createAPNG_records. cbn [nth_error defined bind].
  rewrite E. cbn [bind]. now rewrite F.
Qed.

Lemma fctl_record_mod (sequenceNumber width height delay : Z) :
  fctl_record sequenceNumber width height (delay mod 2 ^ 16)
  = fctl_record sequenceNumber width height delay.
Proof.
  unfold fctl_record, fctl_data.
  change (2 ^ 16) with (256 ^ Z.of_nat 2). now rewrite be_bytes_mod.
Qed.

Lemma frame_records_mod (width height delay : Z) (images : list Uint8Array) :
  forall i s,
  frame_records width height (delay mod 2 ^ 16) i s images
  = frame_records width height delay i s images.
Proof.
  induction images as [|image rest IH]; intros i s; [reflexivity|].
  cbn [frame_records]. destruct (idat_payloads image); [|reflexivity].
  cbn [bind]. now rewrite IH, fctl_record_mod.
Qed.

End Outcome.

(** ** Well-formed images: what the parser returns for them *)

Section WellFormed.

Lemma byte_val_inj (a b : byte) : byte_val a = byte_val b -> a = b.
Proof.
  intros H. rewrite <- (byte_of_val a), <- (byte_of_val b). now rewrite H.
Qed.

Lemma map_byte_val_inj (l1 l2 : list byte) :
  map byte_val l1 = map byte_val l2 -> l1 = l2.
Proof.
  revert l2. induction l1 as [|a l1 IH]; intros [|b l2] H;
    try discriminate; [reflexivity|].
  injection H as Hab Hl. f_equal; [now apply byte_val_inj | now apply IH].
Qed.

Lemma png_chunk_framed (rc : RawChunk) : png_chunk rc -> framed rc.
Proof. intros [Ht [_ [Hc Hp]]]. repeat split; try assumption. lia. Qed.

Lemma parsed_type (rc : RawChunk) :
  png_chunk rc -> type (parsed rc) = map byte_val (tag rc).
Proof.
  intros [_ [Hl _]]. unfold parsed. cbn [type].
  apply decode_ascii, letters_ascii, Hl.
Qed.

Lemma parsed_still (rc : RawChunk) : png_chunk rc -> still_chunk (parsed rc).
Proof.
  intros H. pose proof (parsed_type rc H) as Ht.
  destruct H as [Hlen [Hl [_ Hp]]]. split; [|exact Hp].
  rewrite Ht. split; [now rewrite length_map|].
  apply Forall_map. apply letters_ascii in Hl.
  eapply Forall_impl; [|exact Hl].
  intros b Hb. pose proof (byte_val_range b). cbv beta in Hb. lia.
Qed.

Lemma is_type_parsed (name : string) (rc : RawChunk) :
  png_chunk rc -> is_type name (parsed rc) = tag_in [name] rc.
Proof.
  intros H. unfold is_type, string_eqb, tag_in. cbn [existsb].
  rewrite orb_false_r, (parsed_type rc H).
  change (str name) with (map byte_val (list_byte_of_string name)).
  destruct (list_eq_dec Z.eq_dec _ _) as [E|E];
    destruct (list_eq_dec byte_eq_dec _ _) as [E'|E']; try reflexivity.
  - apply map_byte_val_inj in E. contradiction.
  - rewrite E' in E. contradiction.
Qed.

Lemma tag_in_cons (name : string) (names : list string) (rc : RawChunk) :
  tag_in (name :: names) rc = tag_in [name] rc || tag_in names rc.
Proof. unfold tag_in. cbn [existsb]. now rewrite orb_false_r. Qed.

Lemma plain_parsed (rc : RawChunk) :
  png_chunk rc -> plain (parsed rc) = negb (tag_in reserved_tags rc).
Proof.
  intros H. unfold plain. f_equal.
  induction reserved_tags as [|name names IH]; [reflexivity|].
  cbn [existsb]. now rewrite tag_in_cons, IH, is_type_parsed.
Qed.

Lemma plain_not (c : PNGChunk) (name : string) :
  plain c = true -> In name reserved_tags -> is_type name c = false.
Proof.
  unfold plain. intros H Hin. apply negb_true_iff in H.
  destruct (is_type name c) eqn:E; [|reflexivity].
  assert (existsb (fun n => is_type n c) reserved_tags = true)
    by (apply existsb_exists; now exists name).
  congruence.
Qed.

(** The chunk stream of a well-formed image. *)
Lemma well_formed_chunks (image : Uint8Array) :
  well_formed_png image ->
  exists (header : PNGChunk) (middle : list PNGChunk),
    extractAllChunks image = Ok (header :: middle ++ [iend_record])
    /\ is_type "IHDR" header = true
    /\ List.length (data header) = 13%nat
    /\ still_chunk header
    /\ Forall still_chunk middle
    /\ forallb plain middle = true
    /\ existsb is_IDAT middle = true.
Proof.
  intros [ihdr [middle [iend [Himg [Hall [Hh [Hp [He [Hpe [Hres Hidat]]]]]]]]]].
  inversion Hall as [|? ? Hihdr Hrest]; subst.
  apply Forall_app in Hrest. destruct Hrest as [Hmid Hiend].
  inversion Hiend as [|? ? Hiend' _]; subst.
  assert (Ei : parsed iend = iend_record).
  { unfold parsed. rewrite He, Hpe. reflexivity. }
  assert (Th : forall name, is_type name (parsed ihdr) = tag_in [name] ihdr)
    by (intros name; now apply is_type_parsed).
  exists (parsed ihdr), (map parsed middle).
  split; [|split; [|split; [|split; [|split; [|split]]]]].
  - unfold extractAllChunks.
    change 8 with (len PNG_SIGNATURE).
    rewrite (extract_loop_chunks (ihdr :: middle ++ [iend])
               (Forall_impl _ png_chunk_framed Hall) _ PNG_SIGNATURE [] []
               ltac:(now rewrite app_nil_r)).
    assert (Hn : is_type "IEND" (parsed ihdr) = false)
      by (rewrite Th; unfold tag_in; rewrite Hh; vm_compute; reflexivity).
    cbn [map through_IEND]. rewrite Hn, map_app. cbn [map].
    rewrite Ei.
    assert (Hm : through_IEND (map parsed middle) = (map parsed middle, false)).
    { apply through_IEND_missing. rewrite forallb_forall. intros c Hin.
      apply in_map_iff in Hin. destruct Hin as [rc [<- Hin]].
      rewrite Forall_forall in Hmid. rewrite forallb_forall in Hres.
      specialize (Hres rc Hin). rewrite <- plain_parsed in Hres by auto.
      rewrite (plain_not _ "IEND" Hres); [reflexivity|].
      cbn. auto. }
    rewrite (through_IEND_app_missing _ _ Hm). reflexivity.
  - rewrite Th. unfold tag_in. rewrite Hh. vm_compute. reflexivity.
  - exact Hp.
  - now apply parsed_still.
  - apply Forall_map. eapply Forall_impl; [|exact Hmid].
    intros rc. apply parsed_still.
  - rewrite forallb_forall. intros c Hin.
    apply in_map_iff in Hin. destruct Hin as [rc [<- Hin]].
    rewrite Forall_forall in Hmid. rewrite forallb_forall in Hres.
    rewrite plain_parsed by auto. now apply Hres.
  - rewrite existsb_exists in Hidat. destruct Hidat as [rc [Hin Hrc]].
    apply existsb_exists. exists (parsed rc).
    split; [now apply in_map|].
    rewrite Forall_forall in Hmid. unfold is_IDAT.
    fold (is_type "IDAT" (parsed rc)). now rewrite is_type_parsed by auto.
Qed.

End WellFormed.

(** ** Reading back what the assembler emits *)

Section Emitted.

Lemma flat_map_wire (records : list PNGChunk) :
  flat_map wire records = flat_map raw_bytes (map raw_of records).
Proof.
  induction records as [|c records IH]; [reflexivity|].
  cbn [flat_map map]. now rewrite IH.
Qed.

Lemma emittable_framed (c : PNGChunk) : emittable c -> framed (raw_of c).
Proof.
  intros [[Hlen Hascii] Hdata]. unfold framed, raw_of. cbn [tag check payload].
  rewrite encode_ascii by exact Hascii.
  rewrite length_map, length_be_bytes. auto.
Qed.

Lemma emittable_parsed (c : PNGChunk) : emittable c -> parsed (raw_of c) = c.
Proof.
  intros [[Hlen Hascii] _]. destruct c as [t d].
  unfold parsed, raw_of. cbn [tag payload type data] in *. f_equal.
  rewrite encode_ascii by exact Hascii.
  rewrite decode_ascii.
  - rewrite map_map. rewrite <- (map_id t) at 2.
    apply map_ext_in. intros z Hz. rewrite Forall_forall in Hascii.
    specialize (Hascii z Hz). rewrite byte_val_of. apply Z.mod_small. lia.
  - apply Forall_map. eapply Forall_impl; [|exact Hascii].
    intros z Hz. cbv beta in Hz. rewrite byte_val_of, Z.mod_small; lia.
Qed.

Lemma still_emittable (c : PNGChunk) : still_chunk c -> emittable c.
Proof. intros [Ht Hd]. split; [exact Ht | lia]. Qed.

(** The parser reads back a signature followed by the wire form of
    emittable records, the end marker last. *)
Lemma reparse (records : list PNGChunk) :
  Forall emittable records ->
  forallb (fun c => negb (is_type "IEND" c)) records = true ->
  extractAllChunks (PNG_SIGNATURE ++ flat_map wire (records ++ [iend_record]))
  = Ok (records ++ [iend_record]).
Proof.
  intros Hall Hnone.
  assert (Hend : emittable iend_record).
  { split; [split; [reflexivity|]|cbn; lia].
    repeat constructor; cbn; lia. }
  assert (Hall' : Forall emittable (records ++ [iend_record]))
    by (apply Forall_app; split; [exact Hall | now constructor]).
  assert (Hback : map parsed (map raw_of (records ++ [iend_record]))
                  = records ++ [iend_record]).
  { rewrite map_map. rewrite <- (map_id (records ++ _)) at 2.
    apply map_ext_in. intros c Hc. rewrite Forall_forall in Hall'.
    now apply emittable_parsed, Hall'. }
  assert (Hframed : Forall framed (map raw_of (records ++ [iend_record])))
    by (apply Forall_map; eapply Forall_impl;
        [exact emittable_framed | exact Hall']).
  pose proof (extract_loop_chunks _ Hframed _ PNG_SIGNATURE [] [] eq_refl)
    as Hrun.
  rewrite app_nil_r, <- flat_map_wire in Hrun.
  unfold extractAllChunks. change 8 with (len PNG_SIGNATURE).
  rewrite Hrun, Hback.
  rewrite (through_IEND_app_missing _ _ (through_IEND_missing _ Hnone)).
  reflexivity.
Qed.

Lemma before_IDAT_app (l1 l2 : list PNGChunk) :
  existsb is_IDAT l1 = true -> before_IDAT (l1 ++ l2) = before_IDAT l1.
Proof.
  induction l1 as [|c l1 IH]; cbn [existsb before_IDAT app]; [discriminate|].
  destruct (is_IDAT c); [reflexivity|]. cbn [orb]. intros H. now rewrite IH.
Qed.

Lemma before_IDAT_incl (l : list PNGChunk) (c : PNGChunk) :
  In c (before_IDAT l) -> In c l.
Proof.
  induction l as [|a l IH]; cbn [before_IDAT]; [trivial|].
  destruct (is_IDAT a); [intros []|].
  intros [<-|H]; [now left | right; now apply IH].
Qed.

Lemma frame_record_emittable (width height delay : Z) (c : PNGChunk) :
  frame_record width height delay c ->
  (forall idatData, c = idat_record idatData -> len idatData < 2 ^ 31) ->
  (forall s idatChunk,
     c = {| type := str "fdAT"; data := be_bytes 4 s ++ idatChunk |} ->
     len idatChunk < 2 ^ 31) ->
  emittable c.
Proof.
  assert (Ha : forall name : string,
             List.length (str name) = 4%nat ->
             forallb (fun z => (0 <=? z) && (z <? 128)) (str name) = true ->
             ascii_tag (str name)).
  { intros name Hl Hf. split; [exact Hl|]. apply Forall_forall.
    intros z Hz. rewrite forallb_forall in Hf. specialize (Hf z Hz).
    apply andb_true_iff in Hf. destruct Hf as [H1 H2].
    apply Z.leb_le in H1. apply Z.ltb_lt in H2. lia. }
  intros [[s ->]|[[x ->]|[s [x ->]]]] Hi Hf.
  - split; [now apply Ha|]. cbn [data fctl_record]. unfold fctl_data.
    rewrite !len_app, !len_be_bytes. cbn. lia.
  - split; [now apply Ha|]. cbn [data idat_record].
    specialize (Hi x eq_refl). lia.
  - split; [now apply Ha|]. cbn [data].
    specialize (Hf s x eq_refl). rewrite len_app, len_be_bytes.
    change (Z.of_nat 4) with 4. lia.
Qed.

Lemma frame_record_type (width height delay : Z) (c : PNGChunk) :
  frame_record width height delay c ->
  is_type "IEND" c = false /\ is_type "IHDR" c = false
  /\ is_type "acTL" c = false.
Proof.
  intros [[s ->]|[[x ->]|[s [x ->]]]]; repeat split; reflexivity.
Qed.

Lemma fdat_records_shape (width height delay : Z)
  (idats : list Uint8Array) :
  forall s, Forall (frame_record width height delay) (fdat_records idats s).
Proof.
  induction idats as [|x idats IH]; intros s; cbn [fdat_records];
    constructor; [|apply IH].
  right. right. now exists s, x.
Qed.

Lemma fdat_records_payloads (idats : list Uint8Array) :
  forall s s' x,
  In {| type := str "fdAT"; data := be_bytes 4 s' ++ x |}
    (fdat_records idats s) -> In x idats.
Proof.
  induction idats as [|y idats IH]; intros s s' x; cbn [fdat_records];
    [intros []|].
  intros [H|H].
  - apply (f_equal data) in H. cbn [data] in H. left.
    apply (f_equal (skipn 4)) in H.
    rewrite !skipn_app_len in H by now rewrite length_be_bytes.
    exact H.
  - right. eapply IH, H.
Qed.

Lemma filter_fctl_idat (idats : list Uint8Array) :
  filter (is_type "fcTL") (map idat_record idats) = [].
Proof. induction idats as [|x idats IH]; [reflexivity | exact IH]. Qed.

Lemma filter_fctl_fdat (idats : list Uint8Array) (s : Z) :
  filter (is_type "fcTL") (fdat_records idats s) = [].
Proof.
  revert s. induction idats as [|x idats IH]; intros s; [reflexivity|].
  exact (IH (s + 1)).
Qed.

(** The shape of what the frame loop emits, whatever the images are. *)
Lemma frame_records_shape (width height delay : Z)
  (images : list Uint8Array) :
  forall i s frecs next,
  frame_records width height delay i s images = Ok (frecs, next) ->
  Forall (frame_record width height delay) frecs
  /\ (exists seqs,
        filter (is_type "fcTL") frecs
        = map (fun n => fctl_record n width height delay) seqs
        /\ List.length seqs = List.length images).
Proof.
  induction images as [|image rest IH]; intros i s frecs next H.
  - injection H as <- <-. split; [constructor|]. now exists [].
  - cbn [frame_records] in H.
    destruct (idat_payloads image) as [idats|e]; [|discriminate].
    cbn [bind] in H.
    destruct (frame_records _ _ _ _ _ rest) as [[recs n']|e] eqn:E;
      [|discriminate].
    cbn [bind fst snd] in H. injection H as <- <-.
    destruct (IH _ _ _ _ E) as [Hshape [seqs [Hf Hl]]].
    assert (Hbody : Forall (frame_record width height delay)
                      (if i =? 0 then map idat_record idats
                       else fdat_records idats (s + 1))).
    { destruct (i =? 0); [|apply fdat_records_shape].
      apply Forall_map, Forall_forall. intros x _. right. left. now exists x. }
    split.
    + constructor; [left; now exists s|].
      apply Forall_app. split; assumption.
    + exists (s :: seqs). cbn [filter map List.length].
      change (is_type "fcTL" (fctl_record s width height delay)) with true.
      cbv iota. rewrite filter_app, Hf, Hl. split; [|reflexivity].
      f_equal.
      replace (filter (is_type "fcTL") _) with (@nil PNGChunk);
        [reflexivity|].
      symmetry. clear. destruct (i =? 0).
      * apply filter_fctl_idat.
      * apply filter_fctl_fdat.
Qed.

(** The frame loop succeeds on images the parser accepts. *)
Lemma frame_records_total (width height delay : Z)
  (images : list Uint8Array) :
  Forall (fun image => exists idats, idat_payloads image = Ok idats) images ->
  forall i s, exists frecs next,
    frame_records width height delay i s images = Ok (frecs, next).
Proof.
  induction 1 as [|image rest [idats Hi] _ IH]; intros i s.
  - now exists [], s.
  - cbn [frame_records]. rewrite Hi. cbn [bind].
    edestruct IH as [recs [n' E]]. rewrite E. cbn [bind fst snd].
    eexists. eexists. reflexivity.
Qed.

(** The payloads the frame loop wraps are those of the images. *)
Lemma frame_records_payloads (width height delay : Z)
  (images : list Uint8Array) (P : Uint8Array -> Prop) :
  Forall (fun image => forall idats,
            idat_payloads image = Ok idats -> Forall P idats) images ->
  forall i s frecs next,
  frame_records width height delay i s images = Ok (frecs, next) ->
  Forall (fun c =>
            (forall x, c = idat_record x -> P x)
            /\ (forall s' x,
                  c = {| type := str "fdAT"; data := be_bytes 4 s' ++ x |} ->
                  P x)) frecs.
Proof.
  induction 1 as [|image rest Himg _ IH]; intros i s frecs next H.
  - injection H as <- <-. constructor.
  - cbn [frame_records] in H.
    destruct (idat_payloads image) as [idats|e] eqn:Ei; [|discriminate].
    cbn [bind] in H.
    destruct (frame_records _ _ _ _ _ rest) as [[recs n']|e] eqn:E;
      [|discriminate].
    cbn [bind fst snd] in H. injection H as <- <-.
    specialize (Himg idats eq_refl). rewrite Forall_forall in Himg.
    constructor; [split; intros; discriminate|].
    apply Forall_app. split; [|eapply IH, E].
    apply Forall_forall. intros c Hc. destruct (i =? 0).
    + apply in_map_iff in Hc. destruct Hc as [y [<- Hy]].
      split; [|intros; discriminate].
      intros x Hx. injection Hx as <-. now apply Himg.
    + split.
      * intros x ->. exfalso. clear -Hc. revert Hc. generalize (s + 1).
        induction idats as [|y idats IHy]; intros n; cbn [fdat_records];
          [intros []|].
        intros [H|H]; [discriminate | eapply IHy, H].
      * intros s' x ->. apply Himg. eapply fdat_records_payloads, Hc.
Qed.

End Emitted.

(** ** The sequence numbers of the frame loop *)

Section Sequence.

Lemma decode_encode_ascii (t : js_string) :
  Forall (fun c => 0 <= c < 128) t ->
  TextDecoder_decode (TextEncoder_encode t) = t.
Proof.
  intros Hascii. rewrite encode_ascii by exact Hascii.
  rewrite decode_ascii.
  - rewrite map_map. rewrite <- (map_id t) at 2.
    apply map_ext_in. intros z Hz. rewrite Forall_forall in Hascii.
    specialize (Hascii z Hz). rewrite byte_val_of. apply Z.mod_small. lia.
  - apply Forall_map. eapply Forall_impl; [|exact Hascii].
    intros z Hz. cbv beta in Hz. rewrite byte_val_of, Z.mod_small; lia.
Qed.

Lemma tag_of_chunk_bytes (t : js_string) (d : Uint8Array) :
  ascii_tag t -> tag_of (chunk_bytes t d) = t.
Proof.
  intros [Hlen Hascii]. unfold tag_of, chunk_bytes.
  rewrite (slice_at _ (be_bytes 4 (len d)) (TextEncoder_encode t) _ 4 8 eq_refl).
  - now apply decode_encode_ascii.
  - now rewrite len_be_bytes.
  - rewrite encode_ascii by exact Hascii. unfold len.
    rewrite length_map, Hlen. reflexivity.
Qed.

Lemma literal_ascii_tag (name : string) :
  List.length (str name) = 4%nat ->
  forallb (fun z => (0 <=? z) && (z <? 128)) (str name) = true ->
  ascii_tag (str name).
Proof.
  intros Hl Hf. split; [exact Hl|]. apply Forall_forall.
  intros z Hz. rewrite forallb_forall in Hf. specialize (Hf z Hz).
  apply andb_true_iff in Hf. destruct Hf as [H1 H2].
  apply Z.leb_le in H1. apply Z.ltb_lt in H2. lia.
Qed.

Lemma frame_record_tag (width height delay : Z) (c : PNGChunk) :
  frame_record width height delay c -> ascii_tag (type c).
Proof.
  intros [[s ->]|[[x ->]|[s [x ->]]]]; now apply literal_ascii_tag.
Qed.

(** The sequence number read from a chunk whose payload starts with one. *)
Lemma sequence_number_of_numbered (t : js_string) (s : Z) (more : Uint8Array) :
  ascii_tag t ->
  string_eqb t (str "fcTL") || string_eqb t (str "fdAT") = true ->
  sequence_number_of (chunk_bytes t (be_bytes 4 s ++ more))
  = Some (s mod 2 ^ 32).
Proof.
  intros Ht Hb. unfold sequence_number_of.
  fold (tag_of (chunk_bytes t (be_bytes 4 s ++ more))).
  rewrite tag_of_chunk_bytes by exact Ht. cbv zeta. rewrite Hb.
  destruct Ht as [Hlen Hascii].
  unfold chunk_bytes, getUint32.
  set (l4 := be_bytes 4 _). set (crc := be_bytes 4 (crc32 _)).
  replace (l4 ++ TextEncoder_encode t ++ (be_bytes 4 s ++ more) ++ crc)
    with ((l4 ++ TextEncoder_encode t) ++ be_bytes 4 s ++ (more ++ crc))
    by now rewrite <- !app_assoc.
  rewrite getUint_field.
  - now rewrite be_value_be_bytes.
  - rewrite len_app. subst l4. rewrite len_be_bytes.
    rewrite encode_ascii by exact Hascii. unfold len.
    rewrite length_map, Hlen. reflexivity.
  - apply length_be_bytes.
Qed.

Lemma sequence_number_of_other (t : js_string) (d : Uint8Array) :
  ascii_tag t ->
  string_eqb t (str "fcTL") || string_eqb t (str "fdAT") = false ->
  sequence_number_of (chunk_bytes t d) = None.
Proof.
  intros Ht Hb. unfold sequence_number_of.
  fold (tag_of (chunk_bytes t d)).
  rewrite tag_of_chunk_bytes by exact Ht. cbv zeta. now rewrite Hb.
Qed.

Lemma sequence_numbers_app (l1 l2 : list Uint8Array) :
  sequence_numbers (l1 ++ l2) = sequence_numbers l1 ++ sequence_numbers l2.
Proof.
  induction l1 as [|c l1 IH]; [reflexivity|].
  cbn [sequence_numbers app]. rewrite IH.
  now destruct (sequence_number_of c).
Qed.

Lemma count_tag_app (name : string) (l1 l2 : list Uint8Array) :
  count_tag name (l1 ++ l2) = (count_tag name l1 + count_tag name l2)%nat.
Proof. unfold count_tag. now rewrite filter_app, length_app. Qed.

Lemma count_tag_wire (name : string) (c : PNGChunk) (chunks : list Uint8Array) :
  ascii_tag (type c) ->
  count_tag name (wire c :: chunks)
  = ((if is_type name c then 1 else 0) + count_tag name chunks)%nat.
Proof.
  intros Ht. unfold count_tag, wire. cbn [filter].
  rewrite tag_of_chunk_bytes by exact Ht. unfold is_type.
  now destruct (string_eqb (type c) (str name)).
Qed.

Lemma counting_from_S (first : Z) (n : nat) :
  counting_from first (S n) = first :: counting_from (first + 1) n.
Proof.
  unfold counting_from. cbn [seq map]. f_equal; [lia|].
  rewrite <- seq_shift, map_map. apply map_ext. intros k. lia.
Qed.

Lemma counting_from_app (first : Z) (a b : nat) :
  counting_from first (a + b)
  = counting_from first a ++ counting_from (first + Z.of_nat a) b.
Proof.
  revert first. induction a as [|a IH]; intros first.
  - cbn [Nat.add]. unfold counting_from at 2. cbn [seq map app].
    f_equal. lia.
  - cbn [Nat.add]. rewrite !counting_from_S, IH. cbn [app].
    do 3 f_equal. lia.
Qed.

Lemma consecutive_counting (n : nat) : consecutive n = counting_from 0 n.
Proof. unfold consecutive, counting_from. now apply map_ext. Qed.

Lemma idat_records_unnumbered (idats : list Uint8Array) :
  sequence_numbers (map wire (map idat_record idats)) = []
  /\ count_tag "fcTL" (map wire (map idat_record idats)) = O
  /\ count_tag "fdAT" (map wire (map idat_record idats)) = O.
Proof.
  assert (Ht : ascii_tag (str "IDAT")) by now apply literal_ascii_tag.
  induction idats as [|x idats [IH1 [IH2 IH3]]]; [now repeat split|].
  cbn [map sequence_numbers].
  rewrite !(count_tag_wire _ (idat_record x)) by exact Ht.
  unfold wire at 1. rewrite sequence_number_of_other by (exact Ht || reflexivity).
  rewrite IH1, IH2, IH3. now repeat split.
Qed.

Lemma fdat_records_numbered (idats : list Uint8Array) :
  forall s,
  count_tag "fcTL" (map wire (fdat_records idats s)) = O
  /\ count_tag "fdAT" (map wire (fdat_records idats s)) = List.length idats
  /\ (0 <= s -> s + len idats <= 2 ^ 32 ->
      sequence_numbers (map wire (fdat_records idats s))
      = counting_from s (List.length idats)).
Proof.
  assert (Ht : ascii_tag (str "fdAT")) by now apply literal_ascii_tag.
  induction idats as [|x idats IH]; intros s; [now repeat split|].
  destruct (IH (s + 1)) as [IH1 [IH2 IH3]].
  cbn [fdat_records map sequence_numbers List.length].
  rewrite !(count_tag_wire _ {| type := str "fdAT"; data := _ |})
    by exact Ht.
  rewrite IH1, IH2. split; [reflexivity|]. split; [reflexivity|].
  intros Hs Hb. rewrite len_cons in Hb. pose proof (len_nonneg idats).
  unfold wire at 1. cbn [type data].
  rewrite sequence_number_of_numbered by (exact Ht || reflexivity).
  rewrite IH3 by lia. rewrite counting_from_S, Z.mod_small by lia.
  reflexivity.
Qed.

Lemma sequence_number_of_fctl (s width height delay : Z) :
  sequence_number_of (wire (fctl_record s width height delay))
  = Some (s mod 2 ^ 32).
Proof.
  unfold wire, fctl_record, fctl_data. cbn [type data].
  apply sequence_number_of_numbered; [now apply literal_ascii_tag|reflexivity].
Qed.

(** What the frame loop numbers: one frame-control chunk per frame, one
    frame-data chunk per [IDAT] of every frame but frame 0, numbered
    consecutively from the number the loop starts with. *)
Lemma frame_records_sequence (width height delay : Z)
  (images : list Uint8Array) :
  forall i s frecs next,
  frame_records width height delay i s images = Ok (frecs, next) ->
  next = s + len images + Z.of_nat (fdat_count i images)
  /\ count_tag "fcTL" (map wire frecs) = List.length images
  /\ count_tag "fdAT" (map wire frecs) = fdat_count i images
  /\ (0 <= s -> next <= 2 ^ 32 ->
      sequence_numbers (map wire frecs)
      = counting_from s (List.length images + fdat_count i images)).
Proof.
  assert (Ht : ascii_tag (str "fcTL")) by now apply literal_ascii_tag.
  induction images as [|image rest IH]; intros i s frecs next H.
  - injection H as <- <-. cbn. repeat split; lia.
  - cbn [frame_records] in H. unfold idat_count.
    cbn [fdat_count]. unfold idat_count.
    destruct (idat_payloads image) as [idats|e]; [|discriminate].
    cbn [bind] in H.
    destruct (frame_records _ _ _ _ _ rest) as [[recs n']|e] eqn:E;
      [|discriminate].
    cbn [bind fst snd] in H. injection H as <- <-.
    destruct (IH _ _ _ _ E) as [Hnext [Hfc [Hfd Hseq]]]. clear IH E.
    cbn [map sequence_numbers]. rewrite map_app, sequence_numbers_app.
    rewrite !(count_tag_wire _ (fctl_record s width height delay))
      by exact Ht.
    rewrite !count_tag_app, Hfc, Hfd, sequence_number_of_fctl.
    change (is_type "fcTL" (fctl_record s width height delay)) with true.
    change (is_type "fdAT" (fctl_record s width height delay)) with false.
    cbv iota.
    pose proof (len_nonneg rest). pose proof (len_nonneg idats).
    rewrite len_cons.
    destruct (i =? 0).
    + destruct (idat_records_unnumbered idats) as [I1 [I2 I3]].
      rewrite I1, I2, I3. cbn [app Nat.add].
      split; [lia|]. split; [reflexivity|]. split; [reflexivity|].
      intros Hs Hb. rewrite Hseq by lia. cbn [List.length Nat.add].
      rewrite counting_from_S, Z.mod_small by lia. reflexivity.
    + destruct (fdat_records_numbered idats (s + 1)) as [F1 [F2 F3]].
      rewrite F1, F2.
      split; [unfold len in *; lia|]. split; [reflexivity|].
      split; [reflexivity|].
      intros Hs Hb. rewrite F3, Hseq by (unfold len in *; lia).
      cbn [List.length Nat.add].
      rewrite counting_from_S, Z.mod_small by (unfold len in *; lia).
      replace (List.length rest
               + (List.length idats + fdat_count (i + 1) rest))%nat
        with (List.length idats
              + (List.length rest + fdat_count (i + 1) rest))%nat by lia.
      rewrite (counting_from_app (s + 1) (List.length idats)). reflexivity.
Qed.

Lemma fdat_count_later (images : list Uint8Array) :
  forall i, 0 < i -> fdat_count i images = list_sum (map idat_count images).
Proof.
  induction images as [|image rest IH]; intros i Hi; [reflexivity|].
  cbn [fdat_count map list_sum].
  destruct (Z.eqb_spec i 0); [lia|]. now rewrite IH by lia.
Qed.

Lemma fdat_count_0 (images : list Uint8Array) :
  fdat_count 0 images = list_sum (map idat_count (tl images)).
Proof.
  destruct images as [|image rest]; [reflexivity|].
  cbn [fdat_count tl]. change (0 =? 0) with true. cbv iota.
  now rewrite fdat_count_later by lia.
Qed.

(** Chunks that are neither frame-control nor frame-data chunks carry no
    sequence number. *)
Lemma sequence_numbers_none (l : list Uint8Array) :
  count_tag "fcTL" l = 0%nat -> count_tag "fdAT" l = 0%nat ->
  sequence_numbers l = [].
Proof.
  induction l as [|c l IH]; [reflexivity|].
  unfold count_tag. cbn [filter sequence_numbers].
  unfold sequence_number_of. fold (tag_of c). cbv zeta.
  destruct (string_eqb (tag_of c) (str "fcTL"));
    [intros H; discriminate H|].
  destruct (string_eqb (tag_of c) (str "fdAT"));
    [intros _ H; discriminate H|].
  cbn [orb]. exact IH.
Qed.

Lemma sequence_numbers_unnumbered (l : list PNGChunk) :
  Forall (fun c => ascii_tag (type c)) l ->
  forallb (fun c => negb (is_type "fcTL" c || is_type "fdAT" c)) l = true ->
  sequence_numbers (map wire l) = [].
Proof.
  induction 1 as [|c l Hc _ IH]; [reflexivity|].
  cbn [forallb map sequence_numbers]. intros H.
  apply andb_true_iff in H. destruct H as [H1 H2].
  apply negb_true_iff in H1. unfold is_type in H1.
  unfold wire at 1. rewrite (sequence_number_of_other _ _ Hc H1).
  exact (IH H2).
Qed.

End Sequence.

(** ** The assembler on well-formed images *)

Section RoundTrip.

Lemma string_eqb_true (s t : js_string) : string_eqb s t = true -> s = t.
Proof. unfold string_eqb. now destruct (list_eq_dec Z.eq_dec s t). Qed.

Lemma find_app_none {A : Type} (f : A -> bool) (l1 l2 : list A) :
  forallb (fun a => negb (f a)) l1 = true -> find f (l1 ++ l2) = find f l2.
Proof.
  induction l1 as [|a l1 IH]; cbn [forallb find app]; [reflexivity|].
  destruct (f a); cbn [negb andb]; [discriminate | exact IH].
Qed.

Lemma filter_none {A : Type} (f : A -> bool) (l : list A) :
  forallb (fun a => negb (f a)) l = true -> filter f l = [].
Proof.
  induction l as [|a l IH]; cbn [forallb filter]; [reflexivity|].
  destruct (f a); cbn [negb andb]; [discriminate | exact IH].
Qed.

Lemma forallb_before_IDAT (f : PNGChunk -> bool) (l : list PNGChunk) :
  forallb f l = true -> forallb f (before_IDAT l) = true.
Proof.
  intros H. rewrite forallb_forall in *. intros c Hc.
  now apply H, before_IDAT_incl.
Qed.

Lemma plain_others (name : string) (l : list PNGChunk) :
  In name reserved_tags -> forallb plain l = true ->
  forallb (fun c => negb (is_type name c)) l = true.
Proof.
  intros Hin H. rewrite forallb_forall in *. intros c Hc.
  now rewrite (plain_not c name (H c Hc) Hin).
Qed.

Lemma idat_payloads_well_formed (image : Uint8Array) :
  well_formed_png image ->
  exists idats, idat_payloads image = Ok idats
                /\ Forall (fun x => len x < 2 ^ 31) idats.
Proof.
  intros H.
  destruct (well_formed_chunks image H)
    as [header [middle [E [_ [_ [Hh [Hm _]]]]]]].
  unfold idat_payloads. rewrite E. cbn [bind]. eexists. split; [reflexivity|].
  apply Forall_map. apply Forall_forall. intros c Hc.
  apply filter_In in Hc. destruct Hc as [Hc _].
  destruct Hc as [<-|Hc]; [apply Hh|].
  apply in_app_or in Hc. destruct Hc as [Hc|[<-|[]]].
  - rewrite Forall_forall in Hm. now apply Hm.
  - cbn. lia.
Qed.

(** What [createAPNG] returns for well-formed images, and what the parser
    makes of it. *)
Lemma createAPNG_well_formed (firstImage : Uint8Array)
  (rest : list Uint8Array) (delay : Z) :
  Forall well_formed_png (firstImage :: rest) ->
  exists (header : PNGChunk) (middle copied frecs : list PNGChunk)
         (width height next : Z),
    extractAllChunks firstImage = Ok (header :: middle ++ [iend_record])
    /\ type header = str "IHDR"
    /\ getUint32 (data header) 0 = Ok width
    /\ getUint32 (data header) 4 = Ok height
    /\ forallb plain copied = true
    /\ frame_records width height delay 0 0 (firstImage :: rest)
       = Ok (frecs, next)
    /\ createAPNG (firstImage :: rest) delay
       = Ok (PNG_SIGNATURE
               ++ flat_map wire
                    (((header :: copied)
                        ++ [actl_record (len (firstImage :: rest))] ++ frecs)
                       ++ [iend_record]))
    /\ extractAllChunks
         (PNG_SIGNATURE
            ++ flat_map wire
                 (((header :: copied)
                     ++ [actl_record (len (firstImage :: rest))] ++ frecs)
                    ++ [iend_record]))
       = Ok (((header :: copied)
                ++ [actl_record (len (firstImage :: rest))] ++ frecs)
               ++ [iend_record]).
Proof.
  intros Hall. set (images := firstImage :: rest) in *.
  assert (Hfirst : well_formed_png firstImage) by now inversion Hall.
  destruct (well_formed_chunks firstImage Hfirst)
    as [header [middle [E [Hihdr [Hlen [Hh [Hm [Hplain Hidat]]]]]]]].
  assert (Htype : type header = str "IHDR") by now apply string_eqb_true.
  assert (Hw : exists width, getUint32 (data header) 0 = Ok width).
  { eexists. apply getUint_ok; [lia|]. unfold len. rewrite Hlen. cbn. lia. }
  assert (Hht : exists height, getUint32 (data header) 4 = Ok height).
  { eexists. apply getUint_ok; [lia|]. unfold len. rewrite Hlen. cbn. lia. }
  destruct Hw as [width Hw]. destruct Hht as [height Hht].
  assert (Htot : exists frecs next,
             frame_records width height delay 0 0 images = Ok (frecs, next)).
  { apply frame_records_total. eapply Forall_impl; [|exact Hall].
    intros image Hi. destruct (idat_payloads_well_formed image Hi) as [x [Hx _]].
    now exists x. }
  destruct Htot as [frecs [next Hfr]].
  destruct (frame_records_shape _ _ _ _ _ _ _ _ Hfr) as [Hshape _].
  assert (Hpay : Forall (fun c =>
              (forall x, c = idat_record x -> len x < 2 ^ 31)
              /\ (forall s' x,
                    c = {| type := str "fdAT"; data := be_bytes 4 s' ++ x |} ->
                    len x < 2 ^ 31)) frecs).
  { eapply (frame_records_payloads width height delay images
              (fun x => len x < 2 ^ 31)); [|exact Hfr].
    eapply Forall_impl; [|exact Hall].
    intros image Hi idats Hid.
    destruct (idat_payloads_well_formed image Hi) as [x [Hx Hsmall]].
    rewrite Hid in Hx. injection Hx as <-. exact Hsmall. }
  assert (Hbefore : before_IDAT (header :: middle ++ [iend_record])
                    = header :: before_IDAT middle).
  { cbn [before_IDAT]. unfold is_IDAT at 1. rewrite Htype.
    change (string_eqb (str "IHDR") (str "IDAT")) with false. cbv iota.
    now rewrite before_IDAT_app. }
  set (copied := before_IDAT middle).
  assert (Hcopied : forallb plain copied = true)
    by now apply forallb_before_IDAT.
  exists header, middle, copied, frecs, width, height, next.
  split; [exact E|]. split; [exact Htype|]. split; [exact Hw|].
  split; [exact Hht|]. split; [exact Hcopied|]. split; [exact Hfr|].
  split.
  - rewrite createAPNG_records. cbn [images nth_error defined bind].
    rewrite E. cbn [bind].
    assert (Hfind : find (is_type "IHDR") (header :: middle ++ [iend_record])
                    = Some header) by (cbn [find]; now rewrite Hihdr).
    rewrite Hfind, Hw. cbn [bind]. rewrite Hht. cbn [bind].
    fold images. rewrite Hfr. cbn [bind fst]. rewrite Hbefore.
    now rewrite <- !app_assoc.
  - apply reparse.
    + apply Forall_app. split.
      * constructor; [now apply still_emittable|].
        apply Forall_forall. intros c Hc. apply still_emittable.
        rewrite Forall_forall in Hm. now apply Hm, before_IDAT_incl.
      * constructor.
        { split; [now apply literal_ascii_tag | cbn; lia]. }
        apply Forall_forall. intros c Hc.
        rewrite Forall_forall in Hshape, Hpay.
        destruct (Hpay c Hc) as [P1 P2].
        exact (frame_record_emittable width height delay c
                 (Hshape c Hc) P1 P2).
    + rewrite forallb_forall. intros c Hc.
      apply in_app_or in Hc. destruct Hc as [[<-|Hc]|[<-|Hc]].
      * unfold is_type. now rewrite Htype.
      * rewrite forallb_forall in Hcopied.
        rewrite (plain_not c "IEND" (Hcopied c Hc)); [reflexivity|].
        cbn. auto.
      * reflexivity.
      * rewrite Forall_forall in Hshape.
        destruct (frame_record_type _ _ _ c (Hshape c Hc)) as [H1 _].
        now rewrite H1.
Qed.

Lemma getUint16_fctl_delay (s width height delay : Z) :
  getUint16 (data (fctl_record s width height delay)) 20
  = Ok (delay mod 2 ^ 16)
  /\ getUint16 (data (fctl_record s width height delay)) 22 = Ok 1000.
Proof.
  unfold fctl_record, fctl_data, getUint16. cbn [data].
  set (head5 := be_bytes 4 s ++ be_bytes 4 width ++ be_bytes 4 height
                  ++ be_bytes 4 0 ++ be_bytes 4 0).
  assert (Hhead : len head5 = 20)
    by (subst head5; rewrite !len_app, !len_be_bytes; reflexivity).
  split.
  - replace (be_bytes 4 s ++ _) with
      (head5 ++ be_bytes 2 delay
         ++ (be_bytes 2 1000 ++ be_bytes 1 0 ++ be_bytes 1 0))
      by (subst head5; now rewrite <- !app_assoc).
    rewrite getUint_field by (now rewrite ?Hhead || apply length_be_bytes).
    now rewrite be_value_be_bytes.
  - replace (be_bytes 4 s ++ _) with
      ((head5 ++ be_bytes 2 delay) ++ be_bytes 2 1000
         ++ (be_bytes 1 0 ++ be_bytes 1 0))
      by (subst head5; now rewrite <- !app_assoc).
    rewrite getUint_field; [reflexivity | | reflexivity].
    now rewrite len_app, Hhead, len_be_bytes.
Qed.

(** The chunks a still image has ahead of its first [IDAT] carry no
    sequence number when they are copied. *)
Lemma sequence_numbers_still (image : Uint8Array) (cs : list PNGChunk) :
  well_formed_png image -> extractAllChunks image = Ok cs ->
  sequence_numbers (map wire (before_IDAT cs)) = [].
Proof.
  intros Hwf E.
  destruct (well_formed_chunks image Hwf)
    as [header [middle [E' [Hihdr [_ [Hh [Hm [Hplain _]]]]]]]].
  rewrite E in E'. injection E' as ->.
  assert (Htype : type header = str "IHDR") by now apply string_eqb_true.
  assert (Hin : forall c, In c (before_IDAT (header :: middle ++ [iend_record]))
                          -> c = header \/ In c middle \/ c = iend_record).
  { intros c Hc. apply before_IDAT_incl in Hc.
    destruct Hc as [<-|Hc]; [now left|].
    apply in_app_or in Hc. destruct Hc as [Hc|[<-|[]]]; auto. }
  apply sequence_numbers_unnumbered.
  - apply Forall_forall. intros c Hc.
    destruct (Hin c Hc) as [-> | [Hc' | ->]].
    + apply Hh.
    + rewrite Forall_forall in Hm. apply (Hm c Hc').
    + now apply literal_ascii_tag.
  - apply forallb_forall. intros c Hc.
    destruct (Hin c Hc) as [-> | [Hc' | ->]].
    + unfold is_type. rewrite Htype. reflexivity.
    + rewrite forallb_forall in Hplain.
      rewrite !(plain_not c _ (Hplain c Hc')); [reflexivity | cbn; auto 6 ..].
    + reflexivity.
Qed.

End RoundTrip.

(** ** The properties of the specification *)

(** C8. The checksum is the standard reflected CRC-32: for every input it
    equals the bit-serial CRC with polynomial [0xEDB88320], register preset
    to [0xFFFFFFFF] and complemented at the end, and is a 32-bit value; each
    of the 256 table entries the loop reads is eight bit steps of its
    index; the empty input gives 0; the check value of the standard,
    [0xCBF43926] for the digits 1 to 9, is met. The function is total and
    has no failure mode: it is a function into [Z]. *)
Theorem crc32_standard :
  (forall data : Uint8Array,
     crc32 data = crc32_reference data /\ 0 <= crc32 data < 2 ^ 32)
  /\ (forall k, 0 <= k < 256 -> crcTable_at k = iterate 8 crc32_bit k)
  /\ crc32 [] = 0
  /\ crc32 (list_byte_of_string "123456789") = 0xCBF43926.
Proof.
  split; [|split; [|split]].
  - intros data. split; [apply crc32_is_reference | apply crc32_range].
  - apply crcTable_at_spec.
  - reflexivity.
  - vm_compute. reflexivity.
Qed.

(** C7. For every type and payload the serializer returns, without
    failing, the chunk layout of the format: four bytes of big-endian
    payload length, the encoded type tag, the payload, and four bytes of
    big-endian CRC-32 (the reference CRC, not the program's own function)
    over tag and payload. The tag takes four bytes when the type is four
    ASCII characters; the length field and the checksum field read back as
    the payload length (below 2^32) and the CRC. Every byte array
    [createAPNG] collects after the signature is such a chunk, and its
    result is their concatenation. *)
Theorem createChunk_layout :
  (forall (type : js_string) (data : Uint8Array),
     createChunk type data = Ok (chunk_layout (TextEncoder_encode type) data))
  /\ (forall type : js_string,
        ascii_tag type ->
        List.length (TextEncoder_encode type) = 4%nat
        /\ TextEncoder_encode type = map byte_of type)
  /\ (forall data : Uint8Array,
        len data < 2 ^ 32 -> be_value (be_bytes 4 (len data)) = len data)
  /\ (forall bs : list byte,
        be_value (be_bytes 4 (crc32_reference bs)) = crc32_reference bs)
  /\ (forall (images : list Uint8Array) (delay : Z) (chunks : list Uint8Array),
        createAPNG_chunks images delay = Ok chunks ->
        exists records : list PNGChunk,
          chunks
          = PNG_SIGNATURE
              :: map (fun c => chunk_layout (TextEncoder_encode (type c)) (data c))
                   records
          /\ createAPNG images delay
             = Ok (PNG_SIGNATURE
                     ++ flat_map
                          (fun c => chunk_layout (TextEncoder_encode (type c))
                                      (data c))
                          records)).
Proof.
  assert (Hw : forall c, wire c = chunk_layout (TextEncoder_encode (type c)) (data c)).
  { intros c. unfold wire, chunk_bytes, chunk_layout.
    now rewrite crc32_is_reference. }
  split; [|split; [|split; [|split]]].
  - intros type data. rewrite createChunk_bytes. f_equal. apply (Hw {| type := type; data := data |}).
  - intros type [Hlen Hascii]. rewrite encode_ascii by exact Hascii.
    split; [now rewrite length_map | reflexivity].
  - intros data Hlen. rewrite be_value_be_bytes.
    change (256 ^ Z.of_nat 4) with (2 ^ 32).
    apply Z.mod_small. pose proof (len_nonneg data). lia.
  - intros bs. rewrite be_value_be_bytes.
    change (256 ^ Z.of_nat 4) with (2 ^ 32).
    apply Z.mod_small. rewrite <- crc32_is_reference. apply crc32_range.
  - intros images delay chunks H.
    rewrite createAPNG_concat, H. cbn [bind].
    rewrite createAPNG_chunks_records in H.
    destruct (defined (nth_error images 0)) as [pngData|e]; [|discriminate].
    cbn [bind] in H.
    destruct (extractAllChunks pngData) as [cs|e]; [|discriminate].
    cbn [bind] in H.
    destruct (find (is_type "IHDR") cs) as [ihdr|]; [|discriminate].
    destruct (getUint32 (data ihdr) 0) as [width|e]; [|discriminate].
    cbn [bind] in H.
    destruct (getUint32 (data ihdr) 4) as [height|e]; [|discriminate].
    cbn [bind] in H.
    destruct (frame_records width height delay 0 0 images) as [r|e];
      [|discriminate].
    cbn [bind] in H. injection H as <-.
    eexists. split.
    + f_equal. apply map_ext. exact Hw.
    + cbn [List.concat]. rewrite <- flat_map_concat_map.
      do 2 f_equal. apply flat_map_ext. exact Hw.
Qed.

(** C10. The frame-control builder stores the delay in a 16-bit big-endian
    field: whatever integer is passed, the chunk it returns is a [fcTL]
    chunk whose payload holds [delay mod 2^16] at offset 20 and 1000 at
    offset 22 (the payload starts at byte 8 of the chunk). Nothing rejects
    a delay of 65536 or more: [createAPNG] and [convertToAPNG] return for
    [delay] what they return for [delay mod 2^16]. *)
Theorem delay_numerator_wraps (sequenceNumber width height delay : Z) :
  (exists chunk : Uint8Array,
     createFctlChunk sequenceNumber width height delay = Ok chunk
     /\ tag_of chunk = str "fcTL"
     /\ getUint16 chunk (8 + 20) = Ok (delay mod 2 ^ 16)
     /\ getUint16 chunk (8 + 22) = Ok 1000)
  /\ (forall images : list Uint8Array,
        createAPNG images delay = createAPNG images (delay mod 2 ^ 16))
  /\ (forall images : list Uint8Array,
        convertToAPNG images delay = convertToAPNG images (delay mod 2 ^ 16)).
Proof.
  assert (Hc : forall images,
             createAPNG images delay = createAPNG images (delay mod 2 ^ 16)).
  { intros images. rewrite !createAPNG_records.
    destruct (defined (nth_error images 0)) as [pngData|e]; [|reflexivity].
    cbn [bind].
    destruct (extractAllChunks pngData) as [cs|e]; [|reflexivity].
    cbn [bind].
    destruct (find (is_type "IHDR") cs) as [ihdr|]; [|reflexivity].
    destruct (getUint32 (data ihdr) 0) as [w|e]; [|reflexivity].
    cbn [bind].
    destruct (getUint32 (data ihdr) 4) as [h|e]; [|reflexivity].
    cbn [bind]. now rewrite frame_records_mod. }
  split; [|split; [exact Hc|]].
  - exists (wire (fctl_record sequenceNumber width height delay)).
    split; [apply createFctlChunk_bytes|].
    unfold wire, chunk_bytes, fctl_record, fctl_data. cbn [type data].
    set (l4 := be_bytes 4 _).
    set (crc := be_bytes 4 (crc32 _)).
    change (TextEncoder_encode (str "fcTL"))
      with (list_byte_of_string "fcTL").
    set (head5 := be_bytes 4 sequenceNumber ++ be_bytes 4 width
                    ++ be_bytes 4 height ++ be_bytes 4 0 ++ be_bytes 4 0).
    assert (Hhead : len head5 = 20)
      by (subst head5; rewrite !len_app, !len_be_bytes; reflexivity).
    assert (Hl4 : len l4 = 4) by (subst l4; now rewrite len_be_bytes).
    split; [|split].
    + unfold tag_of.
      rewrite (slice_at _ l4 (list_byte_of_string "fcTL") _ 4 8 eq_refl);
        [reflexivity | now rewrite Hl4 | reflexivity].
    + unfold getUint16.
      rewrite (getUint_field 2
                 ((l4 ++ list_byte_of_string "fcTL") ++ head5)
                 (be_bytes 2 delay)
                 (be_bytes 2 1000 ++ be_bytes 1 0 ++ be_bytes 1 0 ++ crc)).
      * now rewrite be_value_be_bytes.
      * rewrite !len_app, Hl4, Hhead. reflexivity.
      * apply length_be_bytes.
    + unfold getUint16.
      rewrite (getUint_field 2
                 (((l4 ++ list_byte_of_string "fcTL") ++ head5)
                    ++ be_bytes 2 delay)
                 (be_bytes 2 1000)
                 (be_bytes 1 0 ++ be_bytes 1 0 ++ crc)).
      * reflexivity.
      * rewrite !len_app, Hl4, Hhead, len_be_bytes. reflexivity.
      * reflexivity.
  - intros images. unfold convertToAPNG. now rewrite Hc.
Qed.

(** C5, as amended. [createAPNG] on an empty image list fails, but with no
    error of its own: [images[0]] is [undefined], and reading its length in
    [extractAllChunks] makes the runtime raise a [TypeError];
    [convertToAPNG] catches it and returns [undefined]. *)
Theorem empty_input_fails (delay : Z) :
  createAPNG [] delay = Throw TypeError /\ convertToAPNG [] delay = None.
Proof. split; reflexivity. Qed.

(** C5, the claim as stated fails: for the empty list the failure is the
    runtime's [TypeError], not an error the program constructs, and at the
    entry point it cannot be told from the failure for an image without a
    header. *)
Lemma empty_input_has_no_error_of_its_own :
  createAPNG [] 100 = Throw TypeError
  /\ raised_by_runtime TypeError = true
  /\ ~ (exists message : string, createAPNG [] 100 = Throw (Error message))
  /\ convertToAPNG [] 100 = convertToAPNG [sample_headerless] 100.
Proof.
  split; [reflexivity|]. split; [reflexivity|]. split.
  - intros [message H]. discriminate H.
  - vm_compute. reflexivity.
Qed.

(** C6. [createAPNG] throws an error of its own exactly when the first
    image parses into a chunk stream without an [IHDR] chunk, and the error
    is then the one with the message of line 22; in particular it does not
    occur when a header chunk is found, nor when the parse itself fails.
    The failure ends the call: [convertToAPNG] returns [undefined], nothing
    is tried again. *)
Theorem missing_header_exactly (images : list Uint8Array) (delay : Z)
  (message : string) :
  (createAPNG images delay = Throw (Error message)
   <-> message = "IHDR chunk not found in the first image"%string
       /\ exists firstImage rest cs,
            images = firstImage :: rest
            /\ extractAllChunks firstImage = Ok cs
            /\ find (is_type "IHDR") cs = None)
  /\ (createAPNG images delay = Throw (Error message) ->
      convertToAPNG images delay = None).
Proof.
  split.
  - split.
    + intros H. destruct (createAPNG_throws _ _ _ H)
        as [[He _]|[[He _]|[He Hex]]]; try discriminate He.
      injection He as ->. split; [reflexivity | exact Hex].
    + intros [-> [firstImage [rest [cs [-> [E F]]]]]].
      exact (createAPNG_headerless firstImage rest cs delay E F).
  - intros H. unfold convertToAPNG. now rewrite H.
Qed.

(** The two sides of C6 on the sample inputs. *)
Example missing_header_sample :
  createAPNG [sample_headerless; sample_black] 100 = Throw IHDR_not_found
  /\ exists binary, createAPNG [sample_black; sample_headerless] 100 = Ok binary.
Proof.
  split; [vm_compute; reflexivity|].
  eexists. vm_compute. reflexivity.
Qed.

(** C4, as amended. [convertToAPNG] never throws: it returns the bytes
    [createAPNG] returns, or [undefined] when [createAPNG] throws. What it
    catches is not the result of explicit bounds checks: [createAPNG] fails
    with the runtime's [TypeError] (exactly for the empty list), with the
    runtime's [RangeError] (a [DataView] read outside its buffer), or with
    its own header error; the parser fails only with the [RangeError]. *)
Theorem failures_are_caught (images : list Uint8Array) (delay : Z) :
  match createAPNG images delay with
  | Ok binary => convertToAPNG images delay = Some binary
  | Throw e =>
      convertToAPNG images delay = None
      /\ ((e = TypeError /\ images = [])
          \/ (e = RangeError /\ images <> [])
          \/ (e = IHDR_not_found /\ images <> []))
  end
  /\ (forall (pngData : Uint8Array) (e : exn),
        extractAllChunks pngData = Throw e ->
        e = RangeError /\ raised_by_runtime e = true).
Proof.
  split.
  - unfold convertToAPNG.
    destruct (createAPNG images delay) as [binary|e] eqn:E; [reflexivity|].
    split; [reflexivity|].
    destruct (createAPNG_throws _ _ _ E)
      as [H|[H|[He [firstImage [rest [cs [-> _]]]]]]]; auto.
    right. right. split; [exact He | discriminate].
  - intros pngData e H. apply extractAllChunks_throws in H. now subst.
Qed.

(** C4, the claim as stated fails: exceptions of the runtime leave the
    parser and [createAPNG]; no explicit check produced them. *)
Lemma runtime_exceptions_leave_the_core :
  createAPNG [] 100 = Throw TypeError
  /\ extractAllChunks sample_cut_length = Throw RangeError
  /\ createAPNG [sample_cut_length] 100 = Throw RangeError
  /\ raised_by_runtime TypeError = true
  /\ raised_by_runtime RangeError = true.
Proof. repeat split; vm_compute; reflexivity. Qed.

(** C3, as amended. Behind a signature and framed chunks none of which is
    an [IEND]: when a length field declares more payload than the buffer
    holds, the parser does not fail; it returns the chunks before, then a
    last chunk with the payload bytes that are there (what is left of the
    buffer behind the tag), and stops. With one to three bytes left where
    a length field should be, it fails with the [RangeError] of the
    [DataView] read. And it fails only so: whenever the parser throws, on
    any buffer at all, the exception is that [RangeError] and the loop has
    reached an offset where one to three bytes are left and the read of
    the length field fails. *)
Theorem truncated_stream_parse (signature : Uint8Array)
  (rcs : list RawChunk) :
  len signature = 8 -> Forall framed rcs ->
  forallb (fun c => negb (is_type "IEND" c)) (map parsed rcs) = true ->
  (forall lengthField tail : Uint8Array,
     List.length lengthField = 4%nat ->
     len tail < 4 + be_value lengthField ->
     extractAllChunks (signature ++ flat_map raw_bytes rcs ++ lengthField ++ tail)
     = Ok (map parsed rcs
             ++ [{| type := TextDecoder_decode (firstn 4 tail);
                    data := skipn 4 tail |}])
     /\ len (skipn 4 tail) = Z.max 0 (len tail - 4))
  /\ (forall cut : Uint8Array,
        0 < len cut < 4 ->
        extractAllChunks (signature ++ flat_map raw_bytes rcs ++ cut)
        = Throw RangeError)
  /\ (forall (pngData : Uint8Array) (e : exn),
        extractAllChunks pngData = Throw e ->
        e = RangeError
        /\ exists (offset : Z) (chunks : list PNGChunk),
             loop_state pngData offset chunks
             /\ 0 < len pngData - offset < 4
             /\ chunkLength_at pngData offset = Throw RangeError).
Proof.
  intros Hsig Hframed Hnone.
  apply through_IEND_missing in Hnone.
  assert (Hrun : forall rest,
            extractAllChunks (signature ++ flat_map raw_bytes rcs ++ rest)
            = extract_loop (signature ++ flat_map raw_bytes rcs ++ rest)
                (len (signature ++ flat_map raw_bytes rcs)) (map parsed rcs)).
  { intros rest. unfold extractAllChunks. rewrite <- Hsig.
    rewrite (extract_loop_chunks rcs Hframed _ signature rest [] eq_refl).
    rewrite Hnone. cbn [fst snd app]. now rewrite len_app. }
  split; [|split].
  - intros lengthField tail Hl Ht.
    pose proof (be_value_nonneg lengthField) as Hn.
    assert (Hshort : len (skipn 4 tail) = Z.max 0 (len tail - 4)).
    { unfold len in *. rewrite length_skipn. lia. }
    split; [|exact Hshort].
    rewrite Hrun.
    set (pre := signature ++ flat_map raw_bytes rcs).
    set (buf := signature ++ flat_map raw_bytes rcs ++ lengthField ++ tail).
    assert (Hbuf : buf = pre ++ lengthField ++ tail)
      by (subst buf pre; now rewrite <- app_assoc).
    pose proof (len_nonneg pre). pose proof (len_nonneg tail).
    assert (Hlen : len buf = len pre + 4 + len tail)
      by (rewrite Hbuf, !len_app; unfold len; lia).
    rewrite extract_loop_eq.
    destruct (Z.ltb_spec (len pre) (len buf)); [|lia].
    rewrite chunkLength_at_ok by lia.
    assert (Hfield : firstn 4 (skipn (Z.to_nat (len pre)) buf) = lengthField).
    { rewrite Hbuf, skipn_app_len by (unfold len; lia).
      now apply firstn_app_len. }
    rewrite Hfield. cbv zeta.
    assert (Hskip : forall k, (k <= 4)%nat ->
              skipn (Z.to_nat (len pre + 4) + k) buf = skipn k tail).
    { intros k Hk. rewrite Hbuf, app_assoc, skipn_app.
      rewrite skipn_all2 by (rewrite length_app; unfold len; lia).
      cbn [app]. f_equal. rewrite length_app. unfold len. lia. }
    rewrite !slice_nonneg by lia.
    replace (Z.to_nat (len pre + 4)) with (Z.to_nat (len pre + 4) + 0)%nat
      by lia.
    replace (Z.to_nat (len pre + 8)) with (Z.to_nat (len pre + 4) + 4)%nat
      by lia.
    rewrite !Hskip by lia. cbn [skipn].
    replace (Z.to_nat (len pre + 8 - (len pre + 4))) with 4%nat by lia.
    rewrite (firstn_all2 (n := Z.to_nat _) (skipn 4 tail))
      by (unfold len in *; lia).
    destruct (string_eqb _ _); [reflexivity|].
    apply extract_loop_done. lia.
  - intros cut Hcut. rewrite Hrun.
    set (pre := signature ++ flat_map raw_bytes rcs).
    pose proof (len_nonneg pre).
    assert (Hlen : len (signature ++ flat_map raw_bytes rcs ++ cut)
                   = len pre + len cut)
      by (subst pre; rewrite !len_app; lia).
    rewrite extract_loop_eq.
    destruct (Z.ltb_spec (len pre)
                (len (signature ++ flat_map raw_bytes rcs ++ cut))); [|lia].
    now rewrite chunkLength_at_short by lia.
  - intros pngData e H. unfold extractAllChunks in H.
    exact (extract_loop_throws_at pngData e 8 [] (loop_start pngData) H).
Qed.

(** The amended C3 on the sample inputs: behind the signature alone. *)
Lemma truncated_stream_parse_sample :
  (extractAllChunks sample_truncated
   = Ok [{| type := str "IDAT"; data := map byte_of [1; 2] |}]
   /\ 2 = Z.max 0 (6 - 4))
  /\ extractAllChunks sample_cut_length = Throw RangeError
  /\ exists (offset : Z) (chunks : list PNGChunk),
       loop_state sample_cut_length offset chunks
       /\ 0 < len sample_cut_length - offset < 4
       /\ chunkLength_at sample_cut_length offset = Throw RangeError.
Proof.
  pose proof (truncated_stream_parse PNG_SIGNATURE [] eq_refl
                (Forall_nil _) eq_refl) as [Hcut [Hshort Hwhere]].
  split; [|split].
  - exact (Hcut (map byte_of [0; 0; 0; 5])
             (map byte_of [73; 68; 65; 84; 1; 2]) eq_refl eq_refl).
  - exact (Hshort (map byte_of [0; 0]) (conj eq_refl eq_refl)).
  - exact (proj2 (Hwhere sample_cut_length RangeError
                    (Hshort (map byte_of [0; 0]) (conj eq_refl eq_refl)))).
Defined.

(** C3, the claim as stated fails: the length field of the only chunk of
    [sample_truncated] declares five payload bytes where two are left, and
    the parser returns a chunk sequence. *)
Lemma truncated_payload_is_accepted :
  chunkLength_at sample_truncated 8 = Ok 5
  /\ len sample_truncated < 8 + 8 + 5
  /\ extractAllChunks sample_truncated
     = Ok [{| type := str "IDAT"; data := map byte_of [1; 2] |}].
Proof. repeat split; vm_compute; reflexivity. Qed.

Lemma samples_well_formed : Forall well_formed_png [sample_black; sample_white].
Proof.
  constructor; [|constructor; [|constructor]].
  - exists sample_ihdr, [sample_idat_black], sample_iend.
    split; [reflexivity|]. split.
    + repeat constructor; vm_compute; reflexivity.
    + repeat split; vm_compute; reflexivity.
  - exists sample_ihdr, [sample_idat_white], sample_iend.
    split; [reflexivity|]. split.
    + repeat constructor; vm_compute; reflexivity.
    + repeat split; vm_compute; reflexivity.
Qed.

(** C1, as amended. When [createAPNG] gets as far as its chunk list, the
    list is the signature, the copied chunks of the first image, the
    animation-control chunk, the chunks of the frame loop and the end
    marker. Neither the animation-control chunk nor the end marker carries
    a sequence number; the chunks of the frame loop carry exactly
    [0 .. N-1] in emission order, where [N] is the number of frames (one
    frame-control chunk each) plus the number of [IDAT] chunks of the
    frames after the first (one frame-data chunk each), as long as [N]
    fits the 32-bit field. The animation-control chunk adds nothing to
    [N]. Over the whole list the sequence numbers are those of the copied
    chunks followed by [0 .. N-1]: exactly [0 .. N-1] when no copied chunk
    is a frame-control or frame-data chunk, as for every well-formed still
    image; a first image that is animated already keeps the numbers of the
    frame-control chunks ahead of its first [IDAT], and these come first
    (see [copied_sequence_number_comes_first]). *)
Theorem sequence_numbers_consecutive (images : list Uint8Array) (delay : Z)
  (chunks : list Uint8Array) :
  createAPNG_chunks images delay = Ok chunks ->
  len images + Z.of_nat (list_sum (map idat_count (tl images))) <= 2 ^ 32 ->
  exists (firstImage : Uint8Array) (firstImageChunks : list PNGChunk)
         (copied frames : list Uint8Array) (actl iend : Uint8Array),
    chunks = PNG_SIGNATURE :: copied ++ [actl] ++ frames ++ [iend]
    /\ nth_error images 0 = Some firstImage
    /\ extractAllChunks firstImage = Ok firstImageChunks
    /\ copy_before_IDAT firstImageChunks [] = Ok copied
    /\ createActlChunk (len images) = Ok actl
    /\ sequence_number_of actl = None
    /\ createChunk (str "IEND") (new_Uint8Array 0) = Ok iend
    /\ sequence_number_of iend = None
    /\ sequence_numbers frames
       = consecutive (List.length images
                      + list_sum (map idat_count (tl images)))
    /\ count_tag "fcTL" frames = List.length images
    /\ count_tag "fdAT" frames = list_sum (map idat_count (tl images))
    /\ sequence_numbers chunks
       = sequence_numbers copied
           ++ consecutive (List.length images
                           + list_sum (map idat_count (tl images)))
    /\ (count_tag "fcTL" copied = 0%nat -> count_tag "fdAT" copied = 0%nat ->
        sequence_numbers chunks
        = consecutive (List.length images
                       + list_sum (map idat_count (tl images))))
    /\ (well_formed_png firstImage ->
        sequence_numbers chunks
        = consecutive (List.length images
                       + list_sum (map idat_count (tl images)))).
Proof.
  intros H Hbound. rewrite createAPNG_chunks_records in H.
  destruct (nth_error images 0) as [firstImage|] eqn:Hfirst; [|discriminate].
  cbn [defined bind] in H.
  destruct (extractAllChunks firstImage) as [cs|e] eqn:E; [|discriminate].
  cbn [bind] in H.
  destruct (find (is_type "IHDR") cs) as [ihdr|]; [|discriminate].
  destruct (getUint32 (data ihdr) 0) as [width|e]; [|discriminate].
  cbn [bind] in H.
  destruct (getUint32 (data ihdr) 4) as [height|e]; [|discriminate].
  cbn [bind] in H.
  destruct (frame_records width height delay 0 0 images) as [[frecs next]|e]
    eqn:Hfr; [|discriminate].
  cbn [bind fst] in H.
  match type of H with
  | Ok ?l = _ => assert (Hchunks : chunks = l) by congruence
  end.
  clear H. subst chunks.
  destruct (frame_records_sequence _ _ _ _ _ _ _ _ Hfr)
    as [Hnext [Hfc [Hfd Hseq]]].
  rewrite fdat_count_0 in Hnext, Hfd, Hseq.
  assert (Hframes : sequence_numbers (map wire frecs)
                    = consecutive (List.length images
                                   + list_sum (map idat_count (tl images)))).
  { rewrite consecutive_counting. apply Hseq; [lia|].
    rewrite Hnext. unfold len in *. lia. }
  assert (Hactl : sequence_number_of (wire (actl_record (len images))) = None)
    by (apply sequence_number_of_other;
        [now apply literal_ascii_tag | reflexivity]).
  assert (Hiend : sequence_number_of (wire iend_record) = None)
    by reflexivity.
  assert (Hsig : sequence_number_of PNG_SIGNATURE = None)
    by (vm_compute; reflexivity).
  assert (Hwhole : sequence_numbers
                     (PNG_SIGNATURE
                        :: map wire (before_IDAT cs
                                       ++ [actl_record (len images)]
                                       ++ frecs ++ [iend_record]))
                   = sequence_numbers (map wire (before_IDAT cs))
                       ++ consecutive
                            (List.length images
                             + list_sum (map idat_count (tl images)))).
  { cbn [sequence_numbers]. rewrite Hsig.
    rewrite !map_app, !sequence_numbers_app. cbn [map sequence_numbers].
    rewrite Hactl, Hiend, Hframes. cbn [app]. now rewrite app_nil_r. }
  exists firstImage, cs, (map wire (before_IDAT cs)), (map wire frecs),
    (wire (actl_record (len images))), (wire iend_record).
  split; [f_equal; rewrite map_app; cbn [map app]; now rewrite map_app|].
  split; [reflexivity|].
  split; [exact E|]. split; [apply copy_before_IDAT_bytes|].
  split; [apply createActlChunk_bytes|].
  split; [exact Hactl|].
  split; [apply createChunk_bytes|]. split; [exact Hiend|].
  split; [exact Hframes|]. split; [exact Hfc|]. split; [exact Hfd|].
  split; [exact Hwhole|]. split.
  - intros H1 H2. rewrite Hwhole.
    now rewrite (sequence_numbers_none _ H1 H2).
  - intros Hwf. rewrite Hwhole.
    now rewrite (sequence_numbers_still firstImage cs Hwf E).
Qed.

(** C1 on the sample images: two frames, one [IDAT] in the second. *)
Lemma sequence_numbers_sample :
  exists (firstImage : Uint8Array) (firstImageChunks : list PNGChunk)
         (copied frames : list Uint8Array) (actl iend : Uint8Array),
    map wire [parsed sample_ihdr; actl_record 2;
              fctl_record 0 1 1 100; idat_record (payload sample_idat_black);
              fctl_record 1 1 1 100;
              {| type := str "fdAT";
                 data := be_bytes 4 2 ++ payload sample_idat_white |};
              iend_record]
    = copied ++ [actl] ++ frames ++ [iend]
    /\ nth_error [sample_black; sample_white] 0 = Some firstImage
    /\ extractAllChunks firstImage = Ok firstImageChunks
    /\ copy_before_IDAT firstImageChunks [] = Ok copied
    /\ createActlChunk 2 = Ok actl
    /\ sequence_number_of actl = None
    /\ createChunk (str "IEND") (new_Uint8Array 0) = Ok iend
    /\ sequence_number_of iend = None
    /\ sequence_numbers frames = [0; 1; 2]
    /\ count_tag "fcTL" frames = 2%nat
    /\ count_tag "fdAT" frames = 1%nat
    /\ sequence_numbers
         (PNG_SIGNATURE
            :: map wire
                 [parsed sample_ihdr; actl_record 2;
                  fctl_record 0 1 1 100;
                  idat_record (payload sample_idat_black);
                  fctl_record 1 1 1 100;
                  {| type := str "fdAT";
                     data := be_bytes 4 2 ++ payload sample_idat_white |};
                  iend_record])
       = [0; 1; 2].
Proof.
  destruct (sequence_numbers_consecutive [sample_black; sample_white] 100
              (PNG_SIGNATURE
                 :: map wire
                      [parsed sample_ihdr; actl_record 2;
                       fctl_record 0 1 1 100;
                       idat_record (payload sample_idat_black);
                       fctl_record 1 1 1 100;
                       {| type := str "fdAT";
                          data := be_bytes 4 2 ++ payload sample_idat_white |};
                       iend_record]))
    as [firstImage [cs [copied [frames [actl [iend H]]]]]].
  - vm_compute. reflexivity.
  - vm_compute. discriminate.
  - exists firstImage, cs, copied, frames, actl, iend.
    destruct H as [H0 [H1 [H2 [H3 [H4 [H5 [H6 [H7 [H8 [H9 [H10
                  [_ [_ Hstill]]]]]]]]]]]]].
    split; [now injection H0|].
    repeat (split; [assumption|]).
    apply Hstill. injection H1 as <-.
    exact (Forall_inv samples_well_formed).
Defined.

(** C1 on a first image that is animated already: [createAPNG] accepts
    it and copies its frame-control chunk with the number it has, ahead of
    the numbers of the frame loop; the output carries 0, 0, 1, 2 and three
    frame-control chunks for two images. *)
Lemma copied_sequence_number_comes_first :
  exists (chunks copied : list Uint8Array) (cs : list PNGChunk),
    createAPNG_chunks [sample_animated; sample_white] 100 = Ok chunks
    /\ extractAllChunks sample_animated = Ok cs
    /\ copy_before_IDAT cs [] = Ok copied
    /\ sequence_numbers copied = [0]
    /\ sequence_numbers chunks = [0; 0; 1; 2]
    /\ count_tag "fcTL" chunks = 3%nat.
Proof.
  eexists. eexists. eexists.
  repeat (split; [vm_compute; reflexivity|]).
  vm_compute. reflexivity.
Qed.

(** C1, the claim as stated fails: with the leading 1 of the formula,
    [N = 1 + frames + frame-data chunks] is 4 for the two sample images,
    and the sequence numbers written are 0, 1, 2. *)
Lemma sequence_count_has_no_leading_one :
  exists chunks : list Uint8Array,
    createAPNG_chunks [sample_black; sample_white] 100 = Ok chunks
    /\ idat_count sample_white = 1%nat
    /\ sequence_numbers chunks = [0; 1; 2]
    /\ sequence_numbers chunks <> consecutive (1 + 2 * 1 + 1).
Proof.
  eexists. split; [vm_compute; reflexivity|].
  split; [vm_compute; reflexivity|].
  split; [vm_compute; reflexivity|].
  vm_compute. discriminate.
Qed.

(** C9. For every non-empty sequence of well-formed images (whatever their
    widths and heights, so also for consistent ones) [createAPNG] returns a
    buffer that begins with the eight signature bytes and ends with the
    end-marker chunk: length field 0, tag [IEND], empty payload, checksum
    [0xAE426082], which is the reference CRC-32 of the tag; the parser
    reads the buffer back as a chunk stream whose last chunk is that end
    marker. *)
Theorem signature_and_end_marker (images : list Uint8Array) (delay : Z) :
  images <> [] -> Forall well_formed_png images ->
  exists (binary body : Uint8Array) (cs : list PNGChunk),
    createAPNG images delay = Ok binary
    /\ binary
       = PNG_SIGNATURE ++ body ++ chunk_layout (list_byte_of_string "IEND") []
    /\ PNG_SIGNATURE
       = map byte_of [0x89; 0x50; 0x4E; 0x47; 0x0D; 0x0A; 0x1A; 0x0A]
    /\ chunk_layout (list_byte_of_string "IEND") []
       = map byte_of [0; 0; 0; 0; 0x49; 0x45; 0x4E; 0x44;
                      0xAE; 0x42; 0x60; 0x82]
    /\ extractAllChunks binary = Ok (cs ++ [iend_record]).
Proof.
  intros Hne Hall. destruct images as [|firstImage rest]; [contradiction|].
  destruct (createAPNG_well_formed firstImage rest delay Hall)
    as [header [middle [copied [frecs [w [h [next
         [_ [_ [_ [_ [_ [_ [Hc Hre]]]]]]]]]]]]]].
  set (records := (header :: copied)
                    ++ [actl_record (len (firstImage :: rest))] ++ frecs)
    in *.
  exists (PNG_SIGNATURE ++ flat_map wire (records ++ [iend_record])),
    (flat_map wire records), records.
  split; [exact Hc|]. split; [|split; [reflexivity|split; [|exact Hre]]].
  - rewrite flat_map_app. cbn [flat_map]. rewrite app_nil_r.
    do 2 f_equal; vm_compute; reflexivity.
  - vm_compute. reflexivity.
Qed.

(** C9 on the sample images. *)
Lemma signature_and_end_marker_sample :
  exists (binary body : Uint8Array) (cs : list PNGChunk),
    createAPNG [sample_black; sample_white] 100 = Ok binary
    /\ binary
       = PNG_SIGNATURE ++ body ++ chunk_layout (list_byte_of_string "IEND") []
    /\ PNG_SIGNATURE
       = map byte_of [0x89; 0x50; 0x4E; 0x47; 0x0D; 0x0A; 0x1A; 0x0A]
    /\ chunk_layout (list_byte_of_string "IEND") []
       = map byte_of [0; 0; 0; 0; 0x49; 0x45; 0x4E; 0x44;
                      0xAE; 0x42; 0x60; 0x82]
    /\ extractAllChunks binary = Ok (cs ++ [iend_record]).
Proof.
  apply (signature_and_end_marker [sample_black; sample_white] 100).
  - discriminate.
  - exact samples_well_formed.
Defined.

(** C2. For every non-empty list of well-formed images (a JavaScript array:
    fewer than 2^32 elements) and every delay of the 16 bits the
    specification gives it, [createAPNG] succeeds and the parser reads its
    output back as a chunk stream whose [IHDR] chunk is the one of the
    first image (so width and height, at offsets 0 and 4 of its payload,
    are those of [images[0]]), whose [acTL] payload starts with the number
    of images, and which has exactly as many [fcTL] chunks as there are
    images, each with delay numerator [delay] and denominator 1000. *)
Theorem reparse_round_trip (images : list Uint8Array) (delay : Z) :
  images <> [] -> Forall well_formed_png images -> len images < 2 ^ 32 ->
  0 <= delay < 2 ^ 16 ->
  exists (binary : Uint8Array) (cs firstChunks : list PNGChunk)
         (header actl : PNGChunk) (width height : Z),
    createAPNG images delay = Ok binary
    /\ extractAllChunks binary = Ok cs
    /\ extractAllChunks (hd [] images) = Ok firstChunks
    /\ find (is_type "IHDR") firstChunks = Some header
    /\ find (is_type "IHDR") cs = Some header
    /\ getUint32 (data header) 0 = Ok width
    /\ getUint32 (data header) 4 = Ok height
    /\ find (is_type "acTL") cs = Some actl
    /\ getUint32 (data actl) 0 = Ok (len images)
    /\ List.length (filter (is_type "fcTL") cs) = List.length images
    /\ Forall (fun c => getUint16 (data c) 20 = Ok delay
                        /\ getUint16 (data c) 22 = Ok 1000)
         (filter (is_type "fcTL") cs).
Proof.
  intros Hne Hall Hlen Hdelay.
  destruct images as [|firstImage rest]; [contradiction|].
  destruct (createAPNG_well_formed firstImage rest delay Hall)
    as [header [middle [copied [frecs [w [h [next
         [E [Htype [Hw [Hh [Hcop [Hfr [Hc Hre]]]]]]]]]]]]]].
  set (images := firstImage :: rest) in *.
  destruct (frame_records_shape _ _ _ _ _ _ _ _ Hfr) as [_ [seqs [Hf Hl]]].
  assert (Hhead : forall name, is_type name header
                               = string_eqb (str "IHDR") (str name))
    by (intros name; unfold is_type; now rewrite Htype).
  assert (Hfilter : filter (is_type "fcTL")
                      (((header :: copied) ++ [actl_record (len images)]
                          ++ frecs) ++ [iend_record])
                    = map (fun n => fctl_record n w h delay) seqs).
  { rewrite !filter_app. cbn [filter]. rewrite Hhead.
    change (string_eqb (str "IHDR") (str "fcTL")) with false.
    change (is_type "fcTL" (actl_record (len images))) with false.
    change (is_type "fcTL" iend_record) with false. cbv iota.
    rewrite (filter_none _ copied)
      by (apply plain_others; [cbn; auto | exact Hcop]).
    cbn [app]. now rewrite app_nil_r. }
  exists (PNG_SIGNATURE
            ++ flat_map wire
                 (((header :: copied) ++ [actl_record (len images)] ++ frecs)
                    ++ [iend_record])),
    (((header :: copied) ++ [actl_record (len images)] ++ frecs)
       ++ [iend_record]),
    (header :: middle ++ [iend_record]), header,
    (actl_record (len images)), w, h.
  split; [exact Hc|]. split; [exact Hre|]. split; [exact E|].
  split; [cbn [find]; now rewrite Hhead|].
  split; [cbn [app find]; now rewrite Hhead|].
  split; [exact Hw|]. split; [exact Hh|].
  split; [|split; [|split]].
  - cbn [app find]. rewrite Hhead.
    change (string_eqb (str "IHDR") (str "acTL")) with false. cbv iota.
    rewrite <- app_assoc, find_app_none
      by (apply plain_others; [cbn; auto | exact Hcop]).
    reflexivity.
  - unfold actl_record, actl_data, getUint32. cbn [data].
    change (be_bytes 4 (len images) ++ be_bytes 4 0)
      with ([] ++ be_bytes 4 (len images) ++ be_bytes 4 0).
    rewrite (getUint_field 4 [] (be_bytes 4 (len images)) (be_bytes 4 0) 0
               eq_refl eq_refl).
    rewrite be_value_be_bytes. change (256 ^ Z.of_nat 4) with (2 ^ 32).
    f_equal. apply Z.mod_small. pose proof (len_nonneg images). lia.
  - now rewrite Hfilter, length_map.
  - rewrite Hfilter. apply Forall_map, Forall_forall.
    intros n _. destruct (getUint16_fctl_delay n w h delay) as [Hnum Hden].
    rewrite Z.mod_small in Hnum by exact Hdelay. now split.
Qed.

(** C2 on the sample images, delay 100. *)
Lemma reparse_round_trip_sample :
  exists (binary : Uint8Array) (cs firstChunks : list PNGChunk)
         (header actl : PNGChunk) (width height : Z),
    createAPNG [sample_black; sample_white] 100 = Ok binary
    /\ extractAllChunks binary = Ok cs
    /\ extractAllChunks sample_black = Ok firstChunks
    /\ find (is_type "IHDR") firstChunks = Some header
    /\ find (is_type "IHDR") cs = Some header
    /\ getUint32 (data header) 0 = Ok width
    /\ getUint32 (data header) 4 = Ok height
    /\ find (is_type "acTL") cs = Some actl
    /\ getUint32 (data actl) 0 = Ok 2
    /\ List.length (filter (is_type "fcTL") cs) = 2%nat
    /\ Forall (fun c => getUint16 (data c) 20 = Ok 100
                        /\ getUint16 (data c) 22 = Ok 1000)
         (filter (is_type "fcTL") cs).
Proof.
  apply (reparse_round_trip [sample_black; sample_white] 100).
  - discriminate.
  - exact samples_well_formed.
  - reflexivity.
  - lia.
Defined.

(** ** Further properties of the codec *)

Section CodecFacts.

Lemma wire_layout (c : PNGChunk) :
  wire c = chunk_layout (TextEncoder_encode (type c)) (data c).
Proof.
  unfold wire, chunk_bytes, chunk_layout. now rewrite crc32_is_reference.
Qed.

Lemma nth_error_fdat_records (idats : list Uint8Array) :
  forall (s : Z) (k : nat) (idat : Uint8Array),
  nth_error idats k = Some idat ->
  nth_error (fdat_records idats s) k
  = Some {| type := str "fdAT";
            data := be_bytes 4 (s + Z.of_nat k) ++ idat |}.
Proof.
  induction idats as [|x idats IH]; intros s k idat H.
  - destruct k; discriminate.
  - destruct k as [|k]; cbn [nth_error fdat_records] in *.
    + injection H as ->. now rewrite Z.add_0_r.
    + rewrite (IH (s + 1) k idat H). do 4 f_equal. lia.
Qed.

Lemma length_fdat_records (idats : list Uint8Array) :
  forall s, List.length (fdat_records idats s) = List.length idats.
Proof.
  induction idats as [|x idats IH]; intros s; [reflexivity|].
  cbn [fdat_records List.length]. now rewrite IH.
Qed.

(** The parser on a signature followed by framed chunks and nothing else. *)
Lemma extractAllChunks_framed (signature : Uint8Array) (rcs : list RawChunk) :
  len signature = 8 -> Forall framed rcs ->
  extractAllChunks (signature ++ flat_map raw_bytes rcs)
  = Ok (fst (through_IEND (map parsed rcs))).
Proof.
  intros Hsig Hframed. unfold extractAllChunks. rewrite <- Hsig.
  pose proof (extract_loop_chunks rcs Hframed _ signature [] [] eq_refl)
    as Hrun.
  rewrite app_nil_r in Hrun. rewrite Hrun.
  destruct (snd (through_IEND (map parsed rcs))); [reflexivity|].
  apply extract_loop_done. rewrite len_app. lia.
Qed.

End CodecFacts.

(** X1. [concatenateUint8Arrays] never throws: filling the freshly
    allocated array by [set] at the running offset gives the concatenation
    of the arrays, whose length is the total length the reducer computes. *)
Theorem concatenateUint8Arrays_is_concat (arrays : list Uint8Array) :
  concatenateUint8Arrays arrays = Ok (List.concat arrays)
  /\ len (List.concat arrays)
     = fold_left (fun sum arr => sum + len arr) arrays 0.
Proof.
  split; [apply concatenateUint8Arrays_concat|].
  assert (H : forall l acc,
            fold_left (fun sum (arr : Uint8Array) => sum + len arr) l acc
            = acc + len (List.concat l)).
  { induction l as [|a l IH]; intros acc; simpl.
    - rewrite len_nil. lia.
    - rewrite IH, len_app. lia. }
  rewrite H. lia.
Qed.

(** X2. [createFdatChunks] never throws and returns one chunk for each
    [IDAT] payload, in order: the chunk at index [k] is an [fdAT] chunk
    whose payload is the sequence number [startSequenceNumber + k] in four
    bytes followed by the payload unchanged. *)
Theorem createFdatChunks_layout (idatChunks : list Uint8Array)
  (startSequenceNumber : Z) :
  exists chunks : list Uint8Array,
    createFdatChunks idatChunks startSequenceNumber = Ok chunks
    /\ List.length chunks = List.length idatChunks
    /\ forall (k : nat) (idatChunk : Uint8Array),
         nth_error idatChunks k = Some idatChunk ->
         nth_error chunks k
         = Some (chunk_layout (list_byte_of_string "fdAT")
                   (be_bytes 4 (startSequenceNumber + Z.of_nat k)
                      ++ idatChunk)).
Proof.
  exists (map wire (fdat_records idatChunks startSequenceNumber)).
  split; [apply createFdatChunks_bytes|].
  split; [now rewrite length_map, length_fdat_records|].
  intros k idat H. rewrite nth_error_map.
  rewrite (nth_error_fdat_records _ _ _ _ H). cbn [option_map].
  now rewrite wire_layout.
Qed.

(** X3. [createActlChunk] never throws and returns a chunk of 20 bytes
    with tag [acTL]: its payload holds the frame count modulo 2^32 and the
    loop count 0. *)
Theorem createActlChunk_layout (numFrames : Z) :
  exists chunk : Uint8Array,
    createActlChunk numFrames = Ok chunk
    /\ chunk = chunk_layout (list_byte_of_string "acTL")
                 (be_bytes 4 numFrames ++ be_bytes 4 0)
    /\ len chunk = 20
    /\ getUint32 chunk 8 = Ok (numFrames mod 2 ^ 32)
    /\ getUint32 chunk 12 = Ok 0.
Proof.
  exists (wire (actl_record numFrames)).
  split; [apply createActlChunk_bytes|].
  split; [now rewrite wire_layout|].
  unfold wire, chunk_bytes, actl_record, actl_data, getUint32. cbn [type data].
  set (l4 := be_bytes 4 _). set (crc := be_bytes 4 (crc32 _)).
  change (TextEncoder_encode (str "acTL")) with (list_byte_of_string "acTL").
  assert (Hl4 : len l4 = 4) by (subst l4; now rewrite len_be_bytes).
  split; [|split].
  - subst crc. rewrite !len_app, Hl4, !len_be_bytes. reflexivity.
  - rewrite (getUint_field 4 (l4 ++ list_byte_of_string "acTL")
               (be_bytes 4 numFrames) (be_bytes 4 0 ++ crc)).
    + now rewrite be_value_be_bytes.
    + rewrite len_app, Hl4. reflexivity.
    + apply length_be_bytes.
  - rewrite (getUint_field 4
               ((l4 ++ list_byte_of_string "acTL") ++ be_bytes 4 numFrames)
               (be_bytes 4 0) crc).
    + reflexivity.
    + rewrite !len_app, Hl4, len_be_bytes. reflexivity.
    + reflexivity.
Qed.

(** X4. [createFctlChunk] never throws and returns a chunk of 38 bytes
    with tag [fcTL] whose payload reads back as: the sequence number, the
    width and the height, each modulo 2^32, both offsets 0, and dispose
    and blend operation 0. *)
Theorem createFctlChunk_layout (sequenceNumber width height delay : Z) :
  exists chunk : Uint8Array,
    createFctlChunk sequenceNumber width height delay = Ok chunk
    /\ len chunk = 38
    /\ tag_of chunk = str "fcTL"
    /\ getUint32 chunk 8 = Ok (sequenceNumber mod 2 ^ 32)
    /\ getUint32 chunk 12 = Ok (width mod 2 ^ 32)
    /\ getUint32 chunk 16 = Ok (height mod 2 ^ 32)
    /\ getUint32 chunk 20 = Ok 0
    /\ getUint32 chunk 24 = Ok 0
    /\ getUint 1 chunk 32 = Ok 0
    /\ getUint 1 chunk 33 = Ok 0.
Proof.
  exists (wire (fctl_record sequenceNumber width height delay)).
  split; [apply createFctlChunk_bytes|].
  unfold wire, chunk_bytes, fctl_record, fctl_data, getUint32.
  cbn [type data].
  set (l4 := be_bytes 4 _). set (crc := be_bytes 4 (crc32 _)).
  change (TextEncoder_encode (str "fcTL")) with (list_byte_of_string "fcTL").
  set (t := list_byte_of_string "fcTL").
  set (s4 := be_bytes 4 sequenceNumber). set (w4 := be_bytes 4 width).
  set (h4 := be_bytes 4 height).
  assert (Hl4 : len l4 = 4) by (subst l4; now rewrite len_be_bytes).
  assert (Hs4 : len s4 = 4) by (subst s4; now rewrite len_be_bytes).
  assert (Hw4 : len w4 = 4) by (subst w4; now rewrite len_be_bytes).
  assert (Hh4 : len h4 = 4) by (subst h4; now rewrite len_be_bytes).
  assert (Ht : len t = 4) by reflexivity.
  set (tail := be_bytes 2 delay ++ be_bytes 2 1000 ++ be_bytes 1 0
                 ++ be_bytes 1 0).
  split; [|split; [|split; [|split; [|split; [|split; [|split; [|split]]]]]]].
  - subst crc. rewrite !len_app, Hl4, Hs4, Hw4, Hh4, !len_be_bytes.
    reflexivity.
  - unfold tag_of.
    rewrite (slice_at _ l4 t _ 4 8 eq_refl);
      [reflexivity | now rewrite Hl4 | reflexivity].
  - rewrite (getUint_field 4 (l4 ++ t) s4
               (w4 ++ h4 ++ be_bytes 4 0 ++ be_bytes 4 0 ++ tail ++ crc)).
    + subst s4. now rewrite be_value_be_bytes.
    + now rewrite len_app, Hl4.
    + apply length_be_bytes.
  - rewrite (getUint_field 4 ((l4 ++ t) ++ s4) w4
               (h4 ++ be_bytes 4 0 ++ be_bytes 4 0 ++ tail ++ crc)).
    + subst w4. now rewrite be_value_be_bytes.
    + now rewrite !len_app, Hl4, Hs4.
    + apply length_be_bytes.
  - rewrite (getUint_field 4 (((l4 ++ t) ++ s4) ++ w4) h4
               (be_bytes 4 0 ++ be_bytes 4 0 ++ tail ++ crc)).
    + subst h4. now rewrite be_value_be_bytes.
    + now rewrite !len_app, Hl4, Hs4, Hw4.
    + apply length_be_bytes.
  - rewrite (getUint_field 4 ((((l4 ++ t) ++ s4) ++ w4) ++ h4) (be_bytes 4 0)
               (be_bytes 4 0 ++ tail ++ crc)).
    + reflexivity.
    + now rewrite !len_app, Hl4, Hs4, Hw4, Hh4.
    + reflexivity.
  - rewrite (getUint_field 4
               (((((l4 ++ t) ++ s4) ++ w4) ++ h4) ++ be_bytes 4 0)
               (be_bytes 4 0) (tail ++ crc)).
    + reflexivity.
    + now rewrite !len_app, Hl4, Hs4, Hw4, Hh4.
    + reflexivity.
  - rewrite (getUint_field 1
               (((((((l4 ++ t) ++ s4) ++ w4) ++ h4) ++ be_bytes 4 0)
                   ++ be_bytes 4 0) ++ be_bytes 2 delay ++ be_bytes 2 1000)
               (be_bytes 1 0) (be_bytes 1 0 ++ crc)).
    + reflexivity.
    + now rewrite !len_app, Hl4, Hs4, Hw4, Hh4, !len_be_bytes.
    + reflexivity.
  - rewrite (getUint_field 1
               ((((((((l4 ++ t) ++ s4) ++ w4) ++ h4) ++ be_bytes 4 0)
                    ++ be_bytes 4 0) ++ be_bytes 2 delay ++ be_bytes 2 1000)
                  ++ be_bytes 1 0)
               (be_bytes 1 0) crc).
    + reflexivity.
    + now rewrite !len_app, Hl4, Hs4, Hw4, Hh4, !len_be_bytes.
    + reflexivity.
Qed.

Section ParserFacts.

Lemma skipn_prefix {A : Type} (p body : list A) (k : nat) :
  (List.length p <= k)%nat ->
  skipn k (p ++ body) = skipn (k - List.length p) body.
Proof.
  intros H. rewrite skipn_app, skipn_all2 by exact H. reflexivity.
Qed.

Lemma chunkLength_at_prefix (p1 p2 body : Uint8Array) (offset : Z) :
  len p1 = len p2 -> len p1 <= offset ->
  chunkLength_at (p1 ++ body) offset = chunkLength_at (p2 ++ body) offset.
Proof.
  intros Hp Ho. unfold chunkLength_at, DataView.
  rewrite !len_app, Hp.
  destruct ((0 <=? offset) && (offset <=? len p2 + len body));
    [|reflexivity].
  cbn [bind]. f_equal.
  rewrite !skipn_prefix by (unfold len in *; lia).
  f_equal. unfold len in *. lia.
Qed.

Lemma slice_prefix (p1 p2 body : Uint8Array) (s e : Z) :
  len p1 = len p2 -> len p1 <= s -> s <= e ->
  slice (p1 ++ body) s e = slice (p2 ++ body) s e.
Proof.
  intros Hp Hs He. pose proof (len_nonneg p1).
  rewrite !slice_nonneg by lia.
  rewrite !skipn_prefix by (unfold len in *; lia).
  do 2 f_equal. unfold len in *. lia.
Qed.

(** The loop never looks at what lies before the offset it starts from. *)
Lemma extract_loop_prefix (p1 p2 body : Uint8Array) :
  len p1 = len p2 ->
  forall (m : nat) (offset : Z) (acc : list PNGChunk),
  m = Z.to_nat (len (p1 ++ body) - offset) -> len p1 <= offset ->
  extract_loop (p1 ++ body) offset acc = extract_loop (p2 ++ body) offset acc.
Proof.
  intros Hp. induction m as [m IH] using lt_wf_ind.
  intros offset acc Hm Ho. pose proof (len_nonneg p1).
  rewrite (extract_loop_eq (p1 ++ body)), (extract_loop_eq (p2 ++ body)).
  assert (Hl : len (p2 ++ body) = len (p1 ++ body))
    by (rewrite !len_app; lia).
  rewrite Hl.
  destruct (Z.ltb_spec offset (len (p1 ++ body))); [|reflexivity].
  rewrite <- (chunkLength_at_prefix p1 p2 body offset Hp Ho).
  destruct (chunkLength_at (p1 ++ body) offset) as [n|e] eqn:E;
    [|reflexivity].
  pose proof (chunkLength_at_nonneg _ _ _ E). cbv zeta.
  rewrite <- (slice_prefix p1 p2 body (offset + 4) (offset + 8))
    by lia.
  rewrite <- (slice_prefix p1 p2 body (offset + 8) (offset + 8 + n))
    by lia.
  destruct (string_eqb _ _); [reflexivity|].
  apply (IH (Z.to_nat (len (p1 ++ body) - (offset + (n + 12))))); lia.
Qed.

Lemma map_parsed_eq (rcs rcs' : list RawChunk) :
  map tag rcs = map tag rcs' -> map payload rcs = map payload rcs' ->
  map parsed rcs = map parsed rcs'.
Proof.
  revert rcs'. induction rcs as [|rc rcs IH]; intros [|rc' rcs'] Ht Hp;
    try discriminate; [reflexivity|].
  cbn [map] in *. injection Ht as Ht1 Ht2. injection Hp as Hp1 Hp2.
  f_equal; [|now apply IH]. unfold parsed. now rewrite Ht1, Hp1.
Qed.

(** The loop bound: a chunk is read only from an offset inside the buffer,
    and every chunk moves the offset by at least 12. *)
Lemma extract_loop_bound (pngData : Uint8Array) :
  forall (m : nat) (offset : Z) (acc cs : list PNGChunk),
  m = Z.to_nat (len pngData - offset) ->
  extract_loop pngData offset acc = Ok cs ->
  12 * (len cs - len acc) <= Z.max 0 (len pngData - offset) + 11
  /\ (Forall (fun c => len (data c) <= len pngData) acc ->
      Forall (fun c => len (data c) <= len pngData) cs).
Proof.
  induction m as [m IH] using lt_wf_ind. intros offset acc cs Hm.
  rewrite extract_loop_eq.
  destruct (Z.ltb_spec offset (len pngData)).
  - destruct (chunkLength_at pngData offset) as [n|e] eqn:E; [|discriminate].
    pose proof (chunkLength_at_nonneg _ _ _ E). cbv zeta.
    set (c := {| type := _; data := _ |}).
    assert (Hc : len (data c) <= len pngData).
    { subst c. cbn [data]. unfold slice, len.
      rewrite length_firstn, length_skipn. lia. }
    destruct (string_eqb _ _).
    + intros Hcs. injection Hcs as <-. rewrite len_app, len_cons, len_nil.
      split; [lia|]. intros Hacc. apply Forall_app. split; [exact Hacc|].
      now constructor.
    + intros Hcs.
      destruct (IH (Z.to_nat (len pngData - (offset + (n + 12))))
                  ltac:(lia) _ _ _ eq_refl Hcs) as [Hn Hd].
      rewrite len_app, len_cons, len_nil in Hn.
      split; [lia|]. intros Hacc. apply Hd, Forall_app.
      split; [exact Hacc | now constructor].
  - intros Hcs. injection Hcs as <-. split; [lia | trivial].
Qed.

End ParserFacts.

(** X5. Serializing and parsing compose to the identity up to the end
    marker: for chunks with four-character ASCII types and payloads below
    2^32 bytes, the parser applied to eight signature bytes followed by
    what [createChunk] returns for each chunk gives the chunks back, up to
    and including the first [IEND]. *)
Theorem serialize_parse_round_trip (signature : Uint8Array)
  (records : list PNGChunk) (chunks : list Uint8Array) :
  len signature = 8 -> Forall emittable records ->
  Forall2 (fun c chunk => createChunk (type c) (data c) = Ok chunk)
    records chunks ->
  extractAllChunks (signature ++ List.concat chunks)
  = Ok (fst (through_IEND records)).
Proof.
  intros Hsig Hall Hser.
  assert (Hchunks : chunks = map wire records).
  { induction Hser as [|c chunk records chunks Hc _ IH]; [reflexivity|].
    inversion Hall; subst. cbn [map]. rewrite createChunk_bytes in Hc.
    injection Hc as <-. f_equal. now apply IH. }
  subst chunks. rewrite <- flat_map_concat_map, flat_map_wire.
  rewrite extractAllChunks_framed; [|exact Hsig|].
  - rewrite map_map. do 3 f_equal. rewrite <- (map_id records) at 2.
    apply map_ext_in. intros c Hc. rewrite Forall_forall in Hall.
    now apply emittable_parsed, Hall.
  - apply Forall_map. eapply Forall_impl; [exact emittable_framed|exact Hall].
Qed.

(** X5 on the chunks of a sample image. *)
Lemma serialize_parse_round_trip_sample :
  extractAllChunks
    (PNG_SIGNATURE
       ++ List.concat (map wire [parsed sample_ihdr; parsed sample_idat_black;
                                 iend_record; parsed sample_idat_white]))
  = Ok [parsed sample_ihdr; parsed sample_idat_black; iend_record].
Proof.
  apply (serialize_parse_round_trip PNG_SIGNATURE
           [parsed sample_ihdr; parsed sample_idat_black; iend_record;
            parsed sample_idat_white]).
  - reflexivity.
  - repeat constructor; vm_compute; intuition discriminate.
  - repeat constructor; apply createChunk_bytes.
Defined.

(** X6. Copying a chunk repairs its check field: for a chunk with a tag of
    four letters that the parser has read, [createChunk] returns length,
    tag, payload and the CRC-32 of tag and payload, whatever the check
    field of the source was; the result is the source chunk byte for byte
    exactly when the source's check field held that CRC. *)
Theorem reserialized_chunk (rc : RawChunk) :
  png_chunk rc ->
  exists chunk : Uint8Array,
    createChunk (type (parsed rc)) (data (parsed rc)) = Ok chunk
    /\ chunk = chunk_layout (tag rc) (payload rc)
    /\ (chunk = raw_bytes rc
        <-> be_value (check rc) = crc32_reference (tag rc ++ payload rc)).
Proof.
  intros Hrc. pose proof Hrc as [Htag [Hletters [Hcheck Hpay]]].
  exists (chunk_layout (tag rc) (payload rc)).
  split; [|split; [reflexivity|]].
  - rewrite createChunk_bytes. f_equal.
    change (chunk_bytes (type (parsed rc)) (data (parsed rc)))
      with (wire (parsed rc)).
    rewrite wire_layout. unfold parsed. cbn [type data].
    now rewrite encode_decode_ascii by now apply letters_ascii.
  - unfold chunk_layout, raw_bytes. split.
    + intros H. do 3 apply app_inv_head in H. rewrite <- H.
      rewrite be_value_be_bytes. change (256 ^ Z.of_nat 4) with (2 ^ 32).
      apply Z.mod_small. rewrite <- crc32_is_reference. apply crc32_range.
    + intros H. do 3 f_equal. rewrite <- H, <- Hcheck.
      apply be_bytes_be_value.
Qed.

(** X6 on the header chunk of the sample images, whose check field is
    right. *)
Lemma reserialized_chunk_sample :
  exists chunk : Uint8Array,
    createChunk (type (parsed sample_ihdr)) (data (parsed sample_ihdr))
    = Ok chunk
    /\ chunk = chunk_layout (tag sample_ihdr) (payload sample_ihdr)
    /\ (chunk = raw_bytes sample_ihdr
        <-> be_value (check sample_ihdr)
            = crc32_reference (tag sample_ihdr ++ payload sample_ihdr)).
Proof.
  apply (reserialized_chunk sample_ihdr).
  repeat split; vm_compute; reflexivity.
Defined.

(** X7. The parser stops behind the first [IEND]: whatever bytes follow
    the end marker, well-formed or not, the result is the chunks up to and
    including it. *)
Theorem parse_stops_at_IEND (signature : Uint8Array) (rcs : list RawChunk)
  (iend : RawChunk) (trailing : Uint8Array) :
  len signature = 8 -> Forall framed rcs -> framed iend ->
  forallb (fun c => negb (is_type "IEND" c)) (map parsed rcs) = true ->
  is_type "IEND" (parsed iend) = true ->
  extractAllChunks
    (signature ++ flat_map raw_bytes (rcs ++ [iend]) ++ trailing)
  = Ok (map parsed (rcs ++ [iend])).
Proof.
  intros Hsig Hframed Hiend Hnone Hend.
  unfold extractAllChunks. rewrite <- Hsig.
  rewrite (extract_loop_chunks (rcs ++ [iend])
             ltac:(apply Forall_app; split; [exact Hframed|now constructor])
             _ signature trailing [] eq_refl).
  rewrite map_app.
  rewrite (through_IEND_app_missing _ _ (through_IEND_missing _ Hnone)).
  cbn [map through_IEND]. rewrite Hend. reflexivity.
Qed.

(** X7 on a sample image followed by two stray bytes. *)
Lemma parse_stops_at_IEND_sample :
  extractAllChunks (sample_black ++ map byte_of [255; 255])
  = Ok (map parsed [sample_ihdr; sample_idat_black; sample_iend]).
Proof.
  unfold sample_black. rewrite <- app_assoc.
  apply (parse_stops_at_IEND PNG_SIGNATURE [sample_ihdr; sample_idat_black]
           sample_iend (map byte_of [255; 255])).
  - reflexivity.
  - repeat constructor; vm_compute; reflexivity.
  - repeat constructor; vm_compute; reflexivity.
  - vm_compute. reflexivity.
  - vm_compute. reflexivity.
Defined.

(** X8. The parser skips the first eight bytes without looking at them:
    two buffers that differ only there parse alike, so a wrong signature is
    not noticed. *)
Theorem signature_is_not_checked (signature1 signature2 body : Uint8Array) :
  len signature1 = 8 -> len signature2 = 8 ->
  extractAllChunks (signature1 ++ body) = extractAllChunks (signature2 ++ body).
Proof.
  intros H1 H2. unfold extractAllChunks.
  apply (extract_loop_prefix signature1 signature2 body ltac:(lia) _ 8 []
           eq_refl).
  lia.
Qed.

(** X8 on a sample image whose signature is overwritten by zeros. *)
Lemma signature_is_not_checked_sample :
  extractAllChunks sample_black
  = extractAllChunks
      (new_Uint8Array 8
         ++ flat_map raw_bytes [sample_ihdr; sample_idat_black; sample_iend]).
Proof.
  apply (signature_is_not_checked PNG_SIGNATURE (new_Uint8Array 8));
    reflexivity.
Defined.

(** X9. The parser reads over the check field of every chunk without
    verifying it: two streams of framed chunks with the same tags and
    payloads parse alike, whatever their check fields hold. *)
Theorem check_field_is_not_verified (signature : Uint8Array)
  (rcs rcs' : list RawChunk) :
  len signature = 8 -> Forall framed rcs -> Forall framed rcs' ->
  map tag rcs = map tag rcs' -> map payload rcs = map payload rcs' ->
  extractAllChunks (signature ++ flat_map raw_bytes rcs)
  = extractAllChunks (signature ++ flat_map raw_bytes rcs').
Proof.
  intros Hsig H1 H2 Ht Hp.
  rewrite !extractAllChunks_framed by assumption.
  now rewrite (map_parsed_eq rcs rcs' Ht Hp).
Qed.

(** X9 on a sample image with the check field of its header zeroed. *)
Lemma check_field_is_not_verified_sample :
  extractAllChunks sample_black
  = extractAllChunks
      (PNG_SIGNATURE
         ++ flat_map raw_bytes
              [raw "IHDR" [0; 0; 0; 1; 0; 0; 0; 1; 8; 0; 0; 0; 0] [0; 0; 0; 0];
               sample_idat_black; sample_iend]).
Proof.
  apply (check_field_is_not_verified PNG_SIGNATURE
           [sample_ihdr; sample_idat_black; sample_iend]
           [raw "IHDR" [0; 0; 0; 1; 0; 0; 0; 1; 8; 0; 0; 0; 0] [0; 0; 0; 0];
            sample_idat_black; sample_iend]).
  - reflexivity.
  - repeat constructor; vm_compute; reflexivity.
  - repeat constructor; vm_compute; reflexivity.
  - reflexivity.
  - reflexivity.
Defined.

(** X10. A buffer of at most eight bytes (an empty file, a bare signature)
    parses to the empty chunk list without error; as the first image it
    makes [createAPNG] throw its missing-header error, whatever the other
    images are. *)
Theorem short_buffer_has_no_chunks (pngData : Uint8Array) :
  len pngData <= 8 ->
  extractAllChunks pngData = Ok []
  /\ forall (rest : list Uint8Array) (delay : Z),
       createAPNG (pngData :: rest) delay = Throw IHDR_not_found.
Proof.
  intros H.
  assert (E : extractAllChunks pngData = Ok [])
    by now apply extract_loop_done.
  split; [exact E|]. intros rest delay.
  exact (createAPNG_headerless pngData rest [] delay E eq_refl).
Qed.

(** X10 on the empty buffer. *)
Lemma short_buffer_has_no_chunks_sample :
  extractAllChunks [] = Ok []
  /\ forall (rest : list Uint8Array) (delay : Z),
       createAPNG ([] :: rest) delay = Throw IHDR_not_found.
Proof. apply (short_buffer_has_no_chunks []). vm_compute. discriminate. Defined.

(** X11. The parser returns at most one chunk for every twelve bytes
    behind the signature (rounded up), and no chunk carries more payload
    than the buffer has bytes. *)
Theorem parser_bounds (pngData : Uint8Array) (cs : list PNGChunk) :
  extractAllChunks pngData = Ok cs ->
  12 * len cs <= Z.max 0 (len pngData - 8) + 11
  /\ Forall (fun c => len (data c) <= len pngData) cs.
Proof.
  intros H.
  destruct (extract_loop_bound pngData _ 8 [] cs eq_refl H) as [Hn Hd].
  rewrite len_nil in Hn. split; [lia|]. apply Hd. constructor.
Qed.

(** X11 on a sample image: 3 chunks in 59 bytes. *)
Lemma parser_bounds_sample :
  12 * 3 <= Z.max 0 (len sample_black - 8) + 11
  /\ Forall (fun c => len (data c) <= len sample_black)
       (map parsed [sample_ihdr; sample_idat_black; sample_iend]).
Proof.
  apply (parser_bounds sample_black
           (map parsed [sample_ihdr; sample_idat_black; sample_iend])).
  vm_compute. reflexivity.
Defined.

Section AssemblerFacts.


Lemma getUint32_ok_iff (view : Uint8Array) (pos : Z) :
  0 <= pos ->
  (exists n, getUint32 view pos = Ok n) <-> pos + 4 <= len view.
Proof.
  intros Hp. split.
  - intros [n H]. destruct (Z_le_gt_dec (pos + 4) (len view)); [assumption|].
    unfold getUint32 in H. rewrite getUint_short in H by (cbn; lia).
    discriminate.
  - intros H. eexists. apply getUint_ok; [exact Hp | cbn; lia].
Qed.

Lemma frame_records_ok_iff (width height delay : Z)
  (images : list Uint8Array) :
  forall i s,
  (exists r, frame_records width height delay i s images = Ok r)
  <-> Forall (fun image => exists cs, extractAllChunks image = Ok cs) images.
Proof.
  induction images as [|image rest IH]; intros i s.
  - split; [constructor | intros _; now eexists].
  - cbn [frame_records]. unfold idat_payloads. split.
    + intros [r H].
      destruct (extractAllChunks image) as [cs|e] eqn:Ei; [|discriminate].
      cbn [bind] in H.
      destruct (frame_records _ _ _ _ _ rest) as [r'|e] eqn:E;
        [|discriminate].
      constructor; [now exists cs|].
      exact (proj1 (IH _ _) (ex_intro _ r' E)).
    + intros H. inversion H as [|? ? [cs Hcs] Hrest]; subst.
      rewrite Hcs. cbn [bind].
      destruct (proj2 (IH (i + 1)
                         (if i =? 0 then s + 1
                          else s + 1 + len (map data (filter is_IDAT cs))))
                  Hrest) as [r' E].
      rewrite E. cbn [bind]. now eexists.
Qed.

Lemma before_IDAT_all (cs : list PNGChunk) :
  forallb (fun c => negb (is_IDAT c)) cs = true -> before_IDAT cs = cs.
Proof.
  induction cs as [|c cs IH]; cbn [forallb before_IDAT]; [reflexivity|].
  destruct (is_IDAT c); cbn [negb andb]; [discriminate|].
  intros H. now rewrite IH.
Qed.


End AssemblerFacts.

(** X12. When [createAPNG] succeeds: exactly when the image list is not
    empty, the first image parses and has an [IHDR] chunk with at least
    eight payload bytes, and every other image parses. Nothing else is
    required: not the delay, not a header or a signature in the other
    images, not equal sizes. [convertToAPNG] returns bytes in exactly the
    same cases. *)
Theorem createAPNG_succeeds_iff (images : list Uint8Array) (delay : Z) :
  ((exists binary, createAPNG images delay = Ok binary)
   <-> exists firstImage rest cs ihdrChunk,
         images = firstImage :: rest
         /\ extractAllChunks firstImage = Ok cs
         /\ find (is_type "IHDR") cs = Some ihdrChunk
         /\ 8 <= len (data ihdrChunk)
         /\ Forall (fun image => exists cs', extractAllChunks image = Ok cs')
              rest)
  /\ ((exists binary, convertToAPNG images delay = Some binary)
      <-> exists binary, createAPNG images delay = Ok binary).
Proof.
  split.
  - rewrite createAPNG_records. split.
    + intros [binary H].
      destruct images as [|firstImage rest]; [discriminate|].
      cbn [nth_error defined bind] in H.
      destruct (extractAllChunks firstImage) as [cs|e] eqn:E; [|discriminate].
      cbn [bind] in H.
      destruct (find (is_type "IHDR") cs) as [ihdr|] eqn:F; [|discriminate].
      destruct (getUint32 (data ihdr) 0) as [w|e] eqn:W; [|discriminate].
      cbn [bind] in H.
      destruct (getUint32 (data ihdr) 4) as [h|e] eqn:Hh; [|discriminate].
      cbn [bind] in H.
      destruct (frame_records w h delay 0 0 (firstImage :: rest)) as [r|e]
        eqn:R; [|discriminate].
      exists firstImage, rest, cs, ihdr. repeat split; auto.
      * apply (proj1 (getUint32_ok_iff (data ihdr) 4 ltac:(lia))).
        now exists h.
      * assert (Hall : Forall (fun image => exists cs',
                                 extractAllChunks image = Ok cs')
                         (firstImage :: rest))
          by exact (proj1 (frame_records_ok_iff _ _ _ _ _ _)
                      (ex_intro _ r R)).
        now inversion Hall.
    + intros [firstImage [rest [cs [ihdr [-> [E [F [Hl Hrest]]]]]]]].
      cbn [nth_error defined bind]. rewrite E. cbn [bind]. rewrite F.
      destruct (proj2 (getUint32_ok_iff (data ihdr) 0 ltac:(lia))
                  ltac:(lia)) as [w W].
      destruct (proj2 (getUint32_ok_iff (data ihdr) 4 ltac:(lia))
                  ltac:(lia)) as [h Hh].
      rewrite W. cbn [bind]. rewrite Hh. cbn [bind].
      destruct (proj2 (frame_records_ok_iff w h delay (firstImage :: rest) 0 0))
        as [r R].
      { constructor; [now exists cs | exact Hrest]. }
      rewrite R. cbn [bind]. now eexists.
  - unfold convertToAPNG. split.
    + intros [binary H].
      destruct (createAPNG images delay) as [b|e]; [now exists b|discriminate].
    + intros [binary H]. rewrite H. now exists binary.
Qed.



(** X14. A first image without an [IDAT] chunk defeats the animation: when
    its chunks have four-character ASCII types and payloads below 2^32
    bytes and end with the [IEND], the copy loop copies all of them, the
    [IEND] included, ahead of the animation-control chunk, so the parser
    reads the output back as the chunks of the first image alone. *)
Theorem key_frame_without_IDAT (firstImage : Uint8Array)
  (rest : list Uint8Array) (delay : Z) (cs : list PNGChunk)
  (binary : Uint8Array) :
  extractAllChunks firstImage = Ok cs ->
  Forall emittable cs ->
  forallb (fun c => negb (is_IDAT c)) cs = true ->
  through_IEND cs = (cs, true) ->
  createAPNG (firstImage :: rest) delay = Ok binary ->
  extractAllChunks binary = Ok cs.
Proof.
  intros E Hall Hnone Hend H. rewrite createAPNG_records in H.
  cbn [nth_error defined bind] in H. rewrite E in H. cbn [bind] in H.
  destruct (find (is_type "IHDR") cs) as [ihdr|]; [|discriminate].
  destruct (getUint32 (data ihdr) 0) as [w|e]; [|discriminate].
  cbn [bind] in H.
  destruct (getUint32 (data ihdr) 4) as [h|e]; [|discriminate].
  cbn [bind] in H.
  destruct (frame_records _ _ _ _ _ _) as [r|e]; [|discriminate].
  cbn [bind] in H.
  match type of H with
  | Ok ?b = _ => assert (Hb : binary = b) by congruence
  end.
  clear H. subst binary.
  rewrite (before_IDAT_all cs Hnone), flat_map_app, (flat_map_wire cs).
  unfold extractAllChunks. change 8 with (len PNG_SIGNATURE).
  rewrite (extract_loop_chunks (map raw_of cs)
             ltac:(apply Forall_map; eapply Forall_impl;
                     [exact emittable_framed | exact Hall])
             _ PNG_SIGNATURE _ [] eq_refl).
  assert (Hback : map parsed (map raw_of cs) = cs).
  { rewrite map_map. rewrite <- (map_id cs) at 2.
    apply map_ext_in. intros c Hc. rewrite Forall_forall in Hall.
    now apply emittable_parsed, Hall. }
  rewrite Hback, Hend. reflexivity.
Qed.

(** X14 on a header and an end marker followed by a second image. *)
Lemma key_frame_without_IDAT_sample :
  extractAllChunks
    (PNG_SIGNATURE
       ++ flat_map wire
            [parsed sample_ihdr; iend_record; actl_record 2;
             fctl_record 0 1 1 100; fctl_record 1 1 1 100;
             {| type := str "fdAT";
                data := be_bytes 4 2 ++ payload sample_idat_white |};
             iend_record])
  = Ok [parsed sample_ihdr; iend_record].
Proof.
  apply (key_frame_without_IDAT
           (PNG_SIGNATURE ++ flat_map raw_bytes [sample_ihdr; sample_iend])
           [sample_white] 100 [parsed sample_ihdr; iend_record]).
  - vm_compute. reflexivity.
  - repeat constructor; vm_compute; intuition discriminate.
  - reflexivity.
  - reflexivity.
  - vm_compute. reflexivity.
Defined.

Section ChecksumFacts.

Lemma testbit_32 (c : Z) : 0 <= c < 2 ^ 32 -> Z.testbit c 32 = false.
Proof.
  intros H. rewrite <- (Z.mod_small c (2 ^ 32)) by exact H.
  apply Z.mod_pow2_bits_high. lia.
Qed.

(** The top bit of the register after one bit step is the bit that was
    shifted out: the polynomial has its bit 31 set. *)
Lemma crc32_bit_top (c : Z) :
  0 <= c < 2 ^ 32 -> Z.testbit (crc32_bit c) 31 = Z.testbit c 0.
Proof.
  intros H. unfold crc32_bit. destruct (Z.testbit c 0).
  - rewrite Z.lxor_spec, Z.shiftr_spec by lia. change (31 + 1) with 32.
    now rewrite testbit_32.
  - rewrite Z.shiftr_spec by lia. change (31 + 1) with 32.
    now apply testbit_32.
Qed.

Lemma lxor_cancel_r (a b c : Z) : Z.lxor a c = Z.lxor b c -> a = b.
Proof.
  intros H. apply (f_equal (fun x => Z.lxor x c)) in H.
  now rewrite !Z.lxor_assoc, Z.lxor_nilpotent, !Z.lxor_0_r in H.
Qed.

Lemma lxor_cancel_l (a b c : Z) : Z.lxor c a = Z.lxor c b -> a = b.
Proof. rewrite !(Z.lxor_comm c). apply lxor_cancel_r. Qed.

(** A bit step loses nothing of a 32-bit register. *)
Lemma crc32_bit_inj (a b : Z) :
  0 <= a < 2 ^ 32 -> 0 <= b < 2 ^ 32 -> crc32_bit a = crc32_bit b -> a = b.
Proof.
  intros Ha Hb H.
  assert (Hlow : Z.testbit a 0 = Z.testbit b 0).
  { now rewrite <- (crc32_bit_top a Ha), <- (crc32_bit_top b Hb), H. }
  assert (Hup : Z.shiftr a 1 = Z.shiftr b 1).
  { unfold crc32_bit in H. rewrite <- Hlow in H.
    destruct (Z.testbit a 0); [exact (lxor_cancel_r _ _ _ H) | exact H]. }
  apply Z.bits_inj'; intros i Hi.
  destruct (Z.eq_dec i 0) as [->|Hpos]; [exact Hlow|].
  replace i with (i - 1 + 1) by lia.
  rewrite <- !Z.shiftr_spec by lia. now rewrite Hup.
Qed.

Lemma iterate_crc32_bit_inj (n : nat) (a b : Z) :
  0 <= a < 2 ^ 32 -> 0 <= b < 2 ^ 32 ->
  iterate n crc32_bit a = iterate n crc32_bit b -> a = b.
Proof.
  revert a b. induction n as [|n IH]; intros a b Ha Hb H; [exact H|].
  cbn [iterate] in H.
  apply crc32_bit_inj; [exact Ha | exact Hb |].
  apply IH; [now apply crc32_bit_range | now apply crc32_bit_range | exact H].
Qed.

Lemma byte_val_32 (b : byte) : 0 <= byte_val b < 2 ^ 32.
Proof. pose proof (byte_val_range b). lia. Qed.

Lemma crc32_byte_range (c : Z) (b : byte) :
  0 <= c < 2 ^ 32 -> 0 <= crc32_byte c b < 2 ^ 32.
Proof.
  intros H. unfold crc32_byte.
  apply iterate_crc32_bit_range, lxor_range; [exact H | apply byte_val_32].
Qed.

Lemma fold_crc32_byte_range (bs : list byte) (c : Z) :
  0 <= c < 2 ^ 32 -> 0 <= fold_left crc32_byte bs c < 2 ^ 32.
Proof.
  revert c. induction bs as [|b bs IH]; intros c H; [exact H|].
  apply IH, crc32_byte_range, H.
Qed.

(** What follows a register cannot make two registers meet again. *)
Lemma fold_crc32_byte_inj (bs : list byte) (c d : Z) :
  0 <= c < 2 ^ 32 -> 0 <= d < 2 ^ 32 ->
  fold_left crc32_byte bs c = fold_left crc32_byte bs d -> c = d.
Proof.
  revert c d. induction bs as [|b bs IH]; intros c d Hc Hd H; [exact H|].
  cbn [fold_left] in H.
  apply IH in H; [|now apply crc32_byte_range..].
  unfold crc32_byte in H.
  apply iterate_crc32_bit_inj in H;
    [|apply lxor_range; [assumption | apply byte_val_32]..].
  exact (lxor_cancel_r _ _ _ H).
Qed.

End ChecksumFacts.

(** X15. [crc32] tells apart any two inputs that differ in the bytes of one
    position only, wherever the position is and however long the input:
    the check field of a chunk exposes every corruption of a single byte of
    its tag or payload. *)
Theorem crc32_detects_one_byte (before after : Uint8Array) (b1 b2 : byte) :
  b1 <> b2 ->
  crc32 (before ++ b1 :: after) <> crc32 (before ++ b2 :: after).
Proof.
  intros Hne H. apply Hne. rewrite !crc32_is_reference in H.
  unfold crc32_reference in H. apply lxor_cancel_r in H.
  rewrite !fold_left_app in H. cbn [fold_left] in H.
  assert (Hinit : 0 <= fold_left crc32_byte before 0xFFFFFFFF < 2 ^ 32)
    by (apply fold_crc32_byte_range; lia).
  apply fold_crc32_byte_inj in H; [|now apply crc32_byte_range..].
  apply byte_val_inj.
  apply (lxor_cancel_l _ _ (fold_left crc32_byte before 0xFFFFFFFF)).
  apply (iterate_crc32_bit_inj 8);
    [apply lxor_range; [assumption | apply byte_val_32]..|].
  exact H.
Qed.

(** X15 on the tag [IEND] against the tag [IENE]. *)
Lemma crc32_detects_one_byte_sample :
  crc32 (list_byte_of_string "IEN" ++ byte_of 0x44 :: [])
  <> crc32 (list_byte_of_string "IEN" ++ byte_of 0x45 :: []).
Proof.
  apply (crc32_detects_one_byte (list_byte_of_string "IEN") []
           (byte_of 0x44) (byte_of 0x45)).
  vm_compute. discriminate.
Defined.

Section DataFacts.

Lemma before_IDAT_none (l : list PNGChunk) :
  forallb (fun c => negb (is_IDAT c)) (before_IDAT l) = true.
Proof.
  induction l as [|c l IH]; cbn [before_IDAT]; [reflexivity|].
  destruct (is_IDAT c) eqn:E; [reflexivity|].
  cbn [forallb]. now rewrite E, IH.
Qed.

Lemma image_data_idat_records (idats : list Uint8Array) :
  flat_map image_data (map idat_record idats) = idats.
Proof.
  induction idats as [|x idats IH]; [reflexivity|].
  cbn [map flat_map]. rewrite IH. reflexivity.
Qed.

Lemma image_data_fdat_records (idats : list Uint8Array) :
  forall s, flat_map image_data (fdat_records idats s) = idats.
Proof.
  induction idats as [|x idats IH]; intros s; [reflexivity|].
  cbn [fdat_records flat_map]. rewrite IH.
  change (image_data {| type := str "fdAT"; data := be_bytes 4 s ++ x |})
    with [skipn 4 (be_bytes 4 s ++ x)].
  rewrite skipn_app_len by (now rewrite length_be_bytes). reflexivity.
Qed.

(** The frame loop hands on the image data of the images as it finds it. *)
Lemma frame_records_data (width height delay : Z)
  (images : list Uint8Array) (payloads : list (list Uint8Array)) :
  Forall2 (fun image idats => idat_payloads image = Ok idats)
    images payloads ->
  forall i s frecs next,
  frame_records width height delay i s images = Ok (frecs, next) ->
  flat_map image_data frecs = List.concat payloads.
Proof.
  induction 1 as [|image idats rest more Hi _ IH]; intros i s frecs next H.
  - injection H as <- <-. reflexivity.
  - cbn [frame_records] in H. rewrite Hi in H. cbn [bind] in H.
    destruct (frame_records _ _ _ _ _ rest) as [[recs n']|e] eqn:E;
      [|discriminate].
    cbn [bind fst snd] in H. injection H as <- <-.
    cbn [flat_map List.concat]. rewrite flat_map_app, (IH _ _ _ _ E).
    change (image_data (fctl_record s width height delay)) with
      (@nil Uint8Array).
    cbn [app]. f_equal.
    destruct (i =? 0);
      [apply image_data_idat_records | apply image_data_fdat_records].
Qed.

Lemma image_data_none (l : list PNGChunk) :
  forallb (fun c => negb (is_IDAT c)) l = true ->
  forallb (fun c => negb (is_type "fdAT" c)) l = true ->
  flat_map image_data l = [].
Proof.
  induction l as [|c l IH]; cbn [forallb flat_map]; [reflexivity|].
  intros H1 H2. apply andb_true_iff in H1, H2.
  destruct H1 as [H1 H1'], H2 as [H2 H2'].
  rewrite (IH H1' H2'). unfold image_data.
  change (is_type "IDAT" c) with (is_IDAT c).
  apply negb_true_iff in H1, H2. now rewrite H1, H2.
Qed.

Lemma idat_payloads_all (images : list Uint8Array) :
  Forall well_formed_png images ->
  exists payloads,
    Forall2 (fun image idats => idat_payloads image = Ok idats)
      images payloads
    /\ Forall (Forall (fun x => len x < 2 ^ 31)) payloads.
Proof.
  induction 1 as [|image rest Hi _ [payloads [IH1 IH2]]].
  - exists []. split; constructor.
  - destruct (idat_payloads_well_formed image Hi) as [idats [E Hs]].
    exists (idats :: payloads). split; now constructor.
Qed.

End DataFacts.

(** X16. No image data is lost, added or reordered: for well-formed images
    the image data of the chunks the parser reads back from the output of
    [createAPNG] (the payloads of its [IDAT] chunks and the payloads of its
    [fdAT] chunks after their sequence numbers) is, in order, the [IDAT]
    payloads of the first image, then those of the second, and so on. *)
Theorem image_data_preserved (images : list Uint8Array) (delay : Z) :
  images <> [] -> Forall well_formed_png images ->
  exists (binary : Uint8Array) (cs : list PNGChunk)
         (payloads : list (list Uint8Array)),
    createAPNG images delay = Ok binary
    /\ extractAllChunks binary = Ok cs
    /\ Forall2 (fun image idats => idat_payloads image = Ok idats)
         images payloads
    /\ flat_map image_data cs = List.concat payloads.
Proof.
  intros Hne Hall. destruct images as [|firstImage rest]; [contradiction|].
  set (images := firstImage :: rest) in *.
  assert (Hfirst : well_formed_png firstImage) by now inversion Hall.
  destruct (well_formed_chunks firstImage Hfirst)
    as [header [middle [E [Hihdr [Hlen [Hh [Hm [Hplain Hidat]]]]]]]].
  assert (Htype : type header = str "IHDR") by now apply string_eqb_true.
  assert (Hw : exists width, getUint32 (data header) 0 = Ok width).
  { eexists. apply getUint_ok; [lia|]. unfold len. rewrite Hlen. cbn. lia. }
  assert (Hht : exists height, getUint32 (data header) 4 = Ok height).
  { eexists. apply getUint_ok; [lia|]. unfold len. rewrite Hlen. cbn. lia. }
  destruct Hw as [width Hw]. destruct Hht as [height Hht].
  destruct (idat_payloads_all images Hall) as [payloads [Hp Hsmall]].
  assert (Htot : exists frecs next,
             frame_records width height delay 0 0 images = Ok (frecs, next)).
  { apply frame_records_total. eapply Forall_impl; [|exact Hall].
    intros image Hi. destruct (idat_payloads_well_formed image Hi) as [x [Hx _]].
    now exists x. }
  destruct Htot as [frecs [next Hfr]].
  destruct (frame_records_shape _ _ _ _ _ _ _ _ Hfr) as [Hshape _].
  assert (Hpay : Forall (fun c =>
              (forall x, c = idat_record x -> len x < 2 ^ 31)
              /\ (forall s' x,
                    c = {| type := str "fdAT"; data := be_bytes 4 s' ++ x |} ->
                    len x < 2 ^ 31)) frecs).
  { eapply (frame_records_payloads width height delay images
              (fun x => len x < 2 ^ 31)); [|exact Hfr].
    eapply Forall_impl; [|exact Hall].
    intros image Hi idats Hid.
    destruct (idat_payloads_well_formed image Hi) as [x [Hx Hs]].
    rewrite Hid in Hx. injection Hx as <-. exact Hs. }
  assert (Hbefore : before_IDAT (header :: middle ++ [iend_record])
                    = header :: before_IDAT middle).
  { cbn [before_IDAT]. unfold is_IDAT at 1. rewrite Htype.
    change (string_eqb (str "IHDR") (str "IDAT")) with false. cbv iota.
    now rewrite before_IDAT_app. }
  set (copied := before_IDAT middle) in *.
  assert (Hcopied : forallb plain copied = true)
    by now apply forallb_before_IDAT.
  set (records := (header :: copied) ++ [actl_record (len images)] ++ frecs).
  exists (PNG_SIGNATURE ++ flat_map wire (records ++ [iend_record])),
    (records ++ [iend_record]), payloads.
  split; [|split; [|split; [exact Hp|]]].
  - rewrite createAPNG_records. cbn [images nth_error defined bind].
    rewrite E. cbn [bind].
    assert (Hfind : find (is_type "IHDR") (header :: middle ++ [iend_record])
                    = Some header) by (cbn [find]; now rewrite Hihdr).
    rewrite Hfind, Hw. cbn [bind]. rewrite Hht. cbn [bind].
    fold images. rewrite Hfr. cbn [bind fst]. rewrite Hbefore.
    subst records. now rewrite <- !app_assoc.
  - apply reparse.
    + apply Forall_app. split.
      * constructor; [now apply still_emittable|].
        apply Forall_forall. intros c Hc. apply still_emittable.
        rewrite Forall_forall in Hm. now apply Hm, before_IDAT_incl.
      * constructor.
        { split; [now apply literal_ascii_tag | cbn; lia]. }
        apply Forall_forall. intros c Hc.
        rewrite Forall_forall in Hshape, Hpay.
        destruct (Hpay c Hc) as [P1 P2].
        exact (frame_record_emittable width height delay c
                 (Hshape c Hc) P1 P2).
    + rewrite forallb_forall. intros c Hc.
      apply in_app_or in Hc. destruct Hc as [[<-|Hc]|[<-|Hc]].
      * unfold is_type. now rewrite Htype.
      * rewrite forallb_forall in Hcopied.
        rewrite (plain_not c "IEND" (Hcopied c Hc)); [reflexivity|].
        cbn. auto.
      * reflexivity.
      * rewrite Forall_forall in Hshape.
        destruct (frame_record_type _ _ _ c (Hshape c Hc)) as [H1 _].
        now rewrite H1.
  - subst records. rewrite !flat_map_app. cbn [flat_map].
    rewrite (frame_records_data _ _ _ _ _ Hp _ _ _ _ Hfr).
    rewrite (image_data_none copied);
      [| apply before_IDAT_none
       | apply plain_others; [cbn; auto 6 | exact Hcopied]].
    unfold image_data at 1. unfold is_type. rewrite Htype.
    change (string_eqb (str "IHDR") (str "IDAT")) with false.
    change (string_eqb (str "IHDR") (str "fdAT")) with false.
    cbv iota.
    change (image_data (actl_record (len images))) with (@nil Uint8Array).
    change (image_data iend_record) with (@nil Uint8Array).
    now rewrite !app_nil_r.
Qed.

(** X16 on the black and the white sample. *)
Lemma image_data_preserved_sample :
  exists (binary : Uint8Array) (cs : list PNGChunk)
         (payloads : list (list Uint8Array)),
    createAPNG [sample_black; sample_white] 100 = Ok binary
    /\ extractAllChunks binary = Ok cs
    /\ Forall2 (fun image idats => idat_payloads image = Ok idats)
         [sample_black; sample_white] payloads
    /\ flat_map image_data cs = List.concat payloads.
Proof.
  apply (image_data_preserved [sample_black; sample_white] 100).
  - discriminate.
  - exact samples_well_formed.
Defined.
